(** * CryptoDrive: the file controller (checkType, checkPassphrase,
      uploadFiles, getAll, download, delete) over a GridFS bucket.

    The controller is embedded as pure functions over an explicit world
    (the [Key] collection and the GridFS bucket).  A handler produces the
    ordered list of observable effects it performs on [res] and [next].
    Requests are handled one at a time and a stream that is piped runs to
    completion before the next request is looked at; ObjectIds are drawn
    from a counter; file-type, jwt-decode, the Key model's passphrase
    comparison and the clock are parameters of the handlers. *)

From Stdlib Require Import Strings.Byte.
From stdpp Require Import base option list strings gmap.

Definition bytes := list byte.

#[global] Instance byte_eq_dec : EqDecision byte := Byte.byte_eq_dec.

(** ** Bitwise xor on bytes (what a stream cipher applies to a Buffer). *)

Definition bits8 : Type :=
  bool * (bool * (bool * (bool * (bool * (bool * (bool * bool)))))).

Definition xor_bits (x y : bits8) : bits8 :=
  let '(x0, (x1, (x2, (x3, (x4, (x5, (x6, x7))))))) := x in
  let '(y0, (y1, (y2, (y3, (y4, (y5, (y6, y7))))))) := y in
  (xorb x0 y0, (xorb x1 y1, (xorb x2 y2, (xorb x3 y3,
  (xorb x4 y4, (xorb x5 y5, (xorb x6 y6, xorb x7 y7))))))).

Definition byte_xor (a b : byte) : byte :=
  Byte.of_bits (xor_bits (Byte.to_bits a) (Byte.to_bits b)).

(** [xor_with pad buf]: every byte of [buf] xored with the byte of [pad] at
    the same offset; offsets past the end of [pad] are left as they are. *)
Fixpoint xor_with (pad buf : bytes) : bytes :=
  match buf, pad with
  | [], _ => []
  | b :: buf', [] => b :: buf'
  | b :: buf', p :: pad' => byte_xor b p :: xor_with pad' buf'
  end.

(** ** Errors *)

(** [AppError] is utils/appError (message, statusCode); the status code is
    absent when the constructor is called with one argument.  [TypeError]
    is the JavaScript fault of reading a property of null or undefined.
    [AuthenticationError] is what decryption raises when the tag does not
    verify. *)
Inductive Error :=
  | AppError (message : string) (statusCode : option nat)
  | TypeError (message : string)
  | AuthenticationError.

#[global] Instance Error_eq_dec : EqDecision Error.
Proof. solve_decision. Defined.

(** The error taxonomy of the specification, read off the status code. *)
Inductive ErrorKind :=
  | ValidationErrorK
  | UnsupportedTypeErrorK
  | AuthenticationErrorK
  | ForbiddenErrorK
  | NotFoundErrorK
  | ConflictErrorK
  | GenericFailureK.

#[global] Instance ErrorKind_eq_dec : EqDecision ErrorKind.
Proof. solve_decision. Defined.

Definition kind_of_status (code : nat) : ErrorKind :=
  if decide (code = 400) then ValidationErrorK
  else if decide (code = 415) then UnsupportedTypeErrorK
  else if decide (code = 401) then AuthenticationErrorK
  else if decide (code = 403) then ForbiddenErrorK
  else if decide (code = 404) then NotFoundErrorK
  else if decide (code = 409) then ConflictErrorK
  else GenericFailureK.

Definition error_kind (e : Error) : ErrorKind :=
  match e with
  | AppError _ (Some code) => kind_of_status code
  | AppError _ None => GenericFailureK
  | TypeError _ => GenericFailureK
  | AuthenticationError => AuthenticationErrorK
  end.

(** ** Uploaded files and requests *)

Module File.
(** One entry of [req.files.file] (express-fileupload). *)
Record t := mk {
  name : string;
  data : bytes;
  size : nat;
  mimetype : string;
  md5 : string;
}.
End File.

(** [req.files.file]: missing, one file object, or an array of them. *)
Inductive FileField :=
  | NoField
  | OneFile (f : File.t)
  | FileArray (fs : list File.t).

Module Jwt.
Record t := mk { id : string }.
End Jwt.

(** jwt-decode: the payload of the session cookie. *)
Definition jwtDecoder (token : Jwt.t) : Jwt.t := token.

Module Req.
(** The parts of an Express request the controller reads.  [None] is
    JavaScript's undefined/null. *)
Record t := mk {
  method : string;
  cookies_jwt : Jwt.t;
  body_key : option string;
  body_passphrase : option string;
  headers_key : option string;
  headers_passphrase : option string;
  params_name : string;
  files : option FileField;
}.
End Req.

(** ** The GridFS bucket *)

Module GridFS.
Record Info := mkInfo {
  fileName : string;
  createDate : string;
  lastModified : string;
  fileSize : string;
  type : string;
}.

Record Metadata := mkMetadata {
  id : string;
  md5 : string;
  info : Info;
}.

(** A document of uploads.files. *)
Record FileDoc := mkFileDoc {
  _id : nat;
  filename : string;
  contentType : string;
  chunkSize : nat;
  metadata : Metadata;
}.

(** A document of uploads.chunks. *)
Record Chunk := mkChunk {
  files_id : nat;
  n : nat;
  data : bytes;
}.

(** Both collections in insertion order, and the next fresh ObjectId. *)
Record Bucket := mkBucket {
  files : list FileDoc;
  chunks : list Chunk;
  next_id : nat;
}.

Definition empty : Bucket := mkBucket [] [] 0.

(** The two filters the controller queries with. *)
Inductive Query :=
  | ByOwner (owner : string)
  | ByOwnerAndFilename (owner : string) (name : string).

Definition matches (q : Query) (d : FileDoc) : bool :=
  match q with
  | ByOwner owner => bool_decide (id (metadata d) = owner)
  | ByOwnerAndFilename owner name =>
      bool_decide (id (metadata d) = owner) && bool_decide (filename d = name)
  end.

(** [gridfsBucket.find(query).toArray]. *)
Definition find (b : Bucket) (q : Query) : list FileDoc :=
  filter (λ d, matches q d) (files b).

(** The driver's default chunk size, used when the option is 0. *)
Definition defaultChunkSize : nat := 255 * 1024.

Definition effectiveChunkSize (chunkSizeBytes : nat) : nat :=
  if decide (chunkSizeBytes = 0) then defaultChunkSize else chunkSizeBytes.

Fixpoint chunked (fuel sz : nat) (buf : bytes) : list bytes :=
  match fuel with
  | 0 => []
  | S fuel' =>
      match buf with
      | [] => []
      | _ => take sz buf :: chunked fuel' sz (drop sz buf)
      end
  end.

Definition split_chunks (sz : nat) (buf : bytes) : list bytes :=
  chunked (length buf) sz buf.

(** [openUploadStream(filename, options)] with [content] piped into it:
    the content is cut into chunks, then the files document is written. *)
Definition openUploadStream (b : Bucket) (name : string)
    (chunkSizeBytes : nat) (ctype : string) (meta : Metadata)
    (content : bytes) : Bucket :=
  let fid := next_id b in
  let sz := effectiveChunkSize chunkSizeBytes in
  mkBucket
    (files b ++ [mkFileDoc fid name ctype sz meta])
    (chunks b ++ imap (λ k piece, mkChunk fid k piece) (split_chunks sz content))
    (S fid).

(** [openDownloadStream(fileID)]: the data events, one per chunk. *)
Definition openDownloadStream (b : Bucket) (fileID : nat) : list bytes :=
  data <$> filter (λ c, files_id c = fileID) (chunks b).

(** [delete(fileID)]: the files document and every chunk of it. *)
Definition delete (b : Bucket) (fileID : nat) : Bucket :=
  mkBucket
    (filter (λ d, _id d ≠ fileID) (files b))
    (filter (λ c, files_id c ≠ fileID) (chunks b))
    (next_id b).

(** Ids in use are below the next fresh id. *)
Definition wf (b : Bucket) : Prop :=
  (∀ d, d ∈ files b → _id d < next_id b) ∧
  (∀ c, c ∈ chunks b → files_id c < next_id b).
End GridFS.

(** ** The Key collection *)

Module KeyModel.
(** A document of the Key collection; [passphrase] is the stored hash. *)
Record t := mk {
  name : string;
  user : string;
  passphrase : string;
  times : nat;
}.

Definition inc_times (k : t) : t :=
  mk (name k) (user k) (passphrase k) (S (times k)).

(** [Key.findOneAndUpdate({_id}, {$inc: {times: 1}}, {upsert: true})]. *)
Definition findOneAndUpdate_inc (keys : gmap string t) (keyID : string)
    : gmap string t :=
  match keys !! keyID with
  | Some k => <[keyID := inc_times k]> keys
  | None => <[keyID := mk "" "" "" 1]> keys
  end.
End KeyModel.

(** ** Observable effects of a handler *)

Inductive Payload :=
  | JsonStatus (status : string)
  | JsonFiles (status : string) (files : list GridFS.FileDoc).

Inductive Event :=
  | Next (err : option Error)
  | ResSet (headers : list (string * string))
  | ResJson (code : nat) (payload : Payload)
  | ResPipe (content : bytes)
  | UnhandledRejection (err : Error).

Record World := mkWorld {
  Key : gmap string KeyModel.t;
  gridfsBucket : GridFS.Bucket;
}.

(** What running an async handler body leaves behind: the world, the
    effects performed so far, and the exception it rejected with, if any. *)
Record Result := mkResult {
  world : World;
  events : list Event;
  thrown : option Error;
}.

Definition Handler : Type := World → Req.t → World * list Event.

(** Modelled from the spec: utils/catchAsync is not under src/.  It wraps an
    async handler so that a rejection is forwarded to [next], which is how
    every failure reaches the caller. *)
Definition catchAsync (fn : World → Req.t → Result) : Handler :=
  λ w req,
    let r := fn w req in
    (world r,
     events r ++ match thrown r with Some e => [Next (Some e)] | None => [] end).

Definition is_null {A} (o : option A) : bool :=
  match o with None => true | Some _ => false end.

(** JavaScript truthiness of a possibly undefined string: [!s] holds for
    undefined and for the empty string. *)
Definition truthy (s : option string) : option string :=
  match s with
  | Some v => if decide (v = "") then None else Some v
  | None => None
  end.

(** [let fileList = req.files.file; if (!Array.isArray(...)) fileList = [it]]:
    faults when [req.files] is null; an entry is [None] when it is undefined. *)
Definition fileListOf (req : Req.t) : list (option File.t) + Error :=
  match Req.files req with
  | None => inr (TypeError "Cannot read properties of null (reading 'file')")
  | Some (FileArray fs) => inl (Some <$> fs)
  | Some (OneFile f) => inl [Some f]
  | Some NoField => inl [None]
  end.

Section Controller.
(** process.env.WHITELIST_TYPE.split(", ") *)
Variable whiteList : list string.
(** file-type's fromBuffer: the detected [.mime], or undefined. *)
Variable fromBuffer : bytes → option string.
(** keyModel's instance method (candidate, stored hash). *)
Variable correctPassphrase : string → string → bool.
(** utils/cryptoFeatures; the first argument of [encryptStream] indexes
    the random draw made for that object. *)
Variable encryptStream : nat → bytes → option string → bytes + Error.
Variable decryptStream : bytes → option string → bytes + Error.
(** new Date().toDateString() and the megabyte rendering of a size. *)
Variable toDateString : string.
Variable fileSizeMB : nat → string.

(** *** checkType *)

Fixpoint checkType_loop (req : Req.t) (fileList : list (option File.t))
    : list Event * option Error :=
  match fileList with
  | [] => ([Next None], None)
  | None :: _ =>
      ([], Some (TypeError "Cannot read properties of undefined (reading 'data')"))
  | Some file :: rest =>
      let fileTypeFromBuffer := fromBuffer (File.data file) in
      if is_null (Req.files req) then
        ([Next (Some (AppError "Please provide a file!" (Some 400)))], None)
      else
        match fileTypeFromBuffer with
        | None =>
            ([], Some (TypeError "Cannot read properties of undefined (reading 'mime')"))
        | Some mime =>
            if bool_decide (mime ∈ whiteList) then checkType_loop req rest
            else ([Next (Some (AppError "File type not allowed" (Some 415)))], None)
        end
  end.

Definition checkType_body (w : World) (req : Req.t) : Result :=
  match fileListOf req with
  | inr e => mkResult w [] (Some e)
  | inl fileList =>
      let '(evs, exn) := checkType_loop req fileList in mkResult w evs exn
  end.

Definition checkType : Handler := catchAsync checkType_body.

(** *** checkPassphrase *)

Definition credentials (req : Req.t) : option string * option string :=
  if decide (Req.method req = "POST") then
    (Req.body_key req, Req.body_passphrase req)
  else if decide (Req.method req = "GET") then
    (Req.headers_key req, Req.headers_passphrase req)
  else (None, None).

Definition checkPassphrase_body (w : World) (req : Req.t) : Result :=
  let '(keyID, passphrase) := credentials req in
  match truthy keyID, truthy passphrase with
  | Some keyID, Some passphrase =>
      match Key w !! keyID with
      | None =>
          mkResult w []
            (Some (TypeError "Cannot read properties of null (reading 'correctPassphrase')"))
      | Some key =>
          if negb (correctPassphrase passphrase (KeyModel.passphrase key)) then
            mkResult w [Next (Some (AppError "Incorrect key passphrase" None))] None
          else
            mkResult
              (mkWorld (KeyModel.findOneAndUpdate_inc (Key w) keyID) (gridfsBucket w))
              [Next None] None
      end
  | _, _ =>
      mkResult w [Next (Some (AppError "Please provide a key and passphrase" None))] None
  end.

Definition checkPassphrase : Handler := catchAsync checkPassphrase_body.

(** *** uploadFiles *)

Definition uploadMetadata (id : string) (file : File.t) : GridFS.Metadata :=
  GridFS.mkMetadata id (File.md5 file)
    (GridFS.mkInfo (File.name file) toDateString toDateString
       (fileSizeMB (File.size file)) (File.mimetype file)).

(** The files document that storing [file] under [fileID] writes. *)
Definition uploadedDoc (id : string) (fileID : nat) (file : File.t)
    : GridFS.FileDoc :=
  GridFS.mkFileDoc fileID (File.name file) (File.mimetype file)
    (GridFS.effectiveChunkSize (File.size file)) (uploadMetadata id file).

Fixpoint uploadFiles_loop (id : string) (passphrase : option string)
    (b : GridFS.Bucket) (fileList : list (option File.t))
    : GridFS.Bucket * option Error :=
  match fileList with
  | [] => (b, None)
  | None :: _ =>
      (b, Some (TypeError "Cannot destructure property 'name' of 'file' as it is undefined."))
  | Some file :: rest =>
      match encryptStream (GridFS.next_id b) (File.data file) passphrase with
      | inr e => (b, Some e)
      | inl storageData =>
          uploadFiles_loop id passphrase
            (GridFS.openUploadStream b (File.name file) (File.size file)
               (File.mimetype file) (uploadMetadata id file) storageData)
            rest
      end
  end.

Definition uploadFiles_body (w : World) (req : Req.t) : Result :=
  let id := Jwt.id (jwtDecoder (Req.cookies_jwt req)) in
  match fileListOf req with
  | inr e => mkResult w [] (Some e)
  | inl fileList =>
      let '(b, exn) :=
        uploadFiles_loop id (Req.body_passphrase req) (gridfsBucket w) fileList in
      match exn with
      | Some e => mkResult (mkWorld (Key w) b) [] (Some e)
      | None =>
          mkResult (mkWorld (Key w) b) [ResJson 200 (JsonStatus "success")] None
      end
  end.

Definition uploadFiles : Handler := catchAsync uploadFiles_body.

(** *** getAll *)

(** The [toArray] callback; [files] is [None] when the driver reports an
    error instead of a result. *)
Definition getAll_cb (files : option (list GridFS.FileDoc)) : list Event :=
  match files with
  | None | Some [] => [ResJson 404 (JsonStatus "failed")]
  | Some fs => [ResJson 200 (JsonFiles "success" fs)]
  end.

Definition getAll_body (w : World) (req : Req.t) : Result :=
  let id := Jwt.id (jwtDecoder (Req.cookies_jwt req)) in
  mkResult w (getAll_cb (Some (GridFS.find (gridfsBucket w) (GridFS.ByOwner id)))) None.

Definition getAll : Handler := catchAsync getAll_body.

(** *** download *)

(** The [toArray] callback of download.  The 403 branch calls [next] and,
    having no return, falls through to the streaming code. *)
Definition download_cb (b : GridFS.Bucket) (req : Req.t) (id name : string)
    (files : option (list GridFS.FileDoc)) : list Event :=
  match files with
  | None | Some [] => [Next (Some (AppError "Not found!" (Some 404)))]
  | Some (file0 :: _) =>
      (if decide (GridFS.id (GridFS.metadata file0) ≠ id)
       then [Next (Some (AppError "Permission denied!" (Some 403)))] else [])
      ++ [ResSet [("Accept-Ranges", "bytes");
                  ("Content-Disposition", "attachment; filename=" +:+ name);
                  ("Content-Type", GridFS.contentType file0)]]
      ++ (let bufferArray := GridFS.openDownloadStream b (GridFS._id file0) in
          let buffer := concat bufferArray in
          match decryptStream buffer (Req.headers_passphrase req) with
          | inl decrypt => [ResPipe decrypt]
          | inr e => [UnhandledRejection e]
          end)
  end.

Definition download_body (w : World) (req : Req.t) : Result :=
  let name := Req.params_name req in
  let id := Jwt.id (jwtDecoder (Req.cookies_jwt req)) in
  mkResult w
    (download_cb (gridfsBucket w) req id name
       (Some (GridFS.find (gridfsBucket w) (GridFS.ByOwnerAndFilename id name))))
    None.

Definition download : Handler := catchAsync download_body.

(** *** delete *)

Definition delete_cb (b : GridFS.Bucket) (id : string)
    (files : option (list GridFS.FileDoc)) : GridFS.Bucket * list Event :=
  match files with
  | None | Some [] => (b, [Next (Some (AppError "Not found!" (Some 404)))])
  | Some (file0 :: _) =>
      if decide (GridFS.id (GridFS.metadata file0) ≠ id) then
        (b, [Next (Some (AppError "Permission denied!" (Some 403)))])
      else
        (GridFS.delete b (GridFS._id file0), [ResJson 200 (JsonStatus "success")])
  end.

Definition delete_body (w : World) (req : Req.t) : Result :=
  let name := Req.params_name req in
  let id := Jwt.id (jwtDecoder (Req.cookies_jwt req)) in
  let '(b, evs) :=
    delete_cb (gridfsBucket w) id
      (Some (GridFS.find (gridfsBucket w) (GridFS.ByOwnerAndFilename id name))) in
  mkResult (mkWorld (Key w) b) evs None.

Definition delete : Handler := catchAsync delete_body.

(** *** Routes *)

Definition calls_next (evs : list Event) : bool :=
  existsb (λ e, match e with Next None => true | _ => false end) evs.

(** Express runs the handlers of a route in order; a handler hands over
    to the following one by calling [next()] without an error. *)
Fixpoint run_route (hs : list Handler) (w : World) (req : Req.t)
    : World * list Event :=
  match hs with
  | [] => (w, [])
  | h :: rest =>
      let '(w', evs) := h w req in
      if calls_next evs then
        let '(w'', evs') := run_route rest w' req in (w'', evs ++ evs')
      else (w', evs)
  end.

(** Modelled from the spec: the router file is not under src/.  The order
    is that of the control flow of the specification: the passphrase is
    verified, the content type is validated, then the files are stored. *)
Definition uploadRoute : list Handler :=
  [checkPassphrase; checkType; uploadFiles].
End Controller.

(** ** utils/cryptoFeatures *)

Section CryptoFeatures.
(** The primitives of the XChaCha20-Poly1305 construction named by the
    controller: a salted key derivation, a keystream, an authentication
    tag over the ciphertext, the wire format that binds salt, nonce and
    tag into the output, and the random draw made per object. *)
Context {Salt Nonce SecretKey Tag : Type} `{!EqDecision Tag}.
Variable kdf : string → Salt → SecretKey.
Variable keystream : SecretKey → Nonce → nat → bytes.
Variable mac : SecretKey → Nonce → bytes → Tag.
Variable frame : Salt → Nonce → Tag → bytes → bytes.
Variable unframe : bytes → option (Salt * Nonce * Tag * bytes).
Variable entropy : nat → Salt * Nonce.

(** Modelled from the spec: utils/cryptoFeatures is not under src/.
    encrypt derives the key from the passphrase and a salt, encrypts under
    a fresh nonce, authenticates the ciphertext and binds nonce and salt
    into the output (specification 4.3). *)
Definition encrypt (plaintext : bytes) (passphrase : string)
    (salt : Salt) (nonce : Nonce) : bytes :=
  let key := kdf passphrase salt in
  let body := xor_with (keystream key nonce (length plaintext)) plaintext in
  frame salt nonce (mac key nonce body) body.

(** Modelled from the spec: utils/cryptoFeatures is not under src/.
    decrypt re-derives the key from the embedded salt and the supplied
    passphrase and fails with AuthenticationError if the tag does not
    verify; nothing is decrypted before the tag has verified. *)
Definition decrypt (ciphertext : bytes) (passphrase : string) : bytes + Error :=
  match unframe ciphertext with
  | None => inr AuthenticationError
  | Some (salt, nonce, tag, body) =>
      let key := kdf passphrase salt in
      if decide (mac key nonce body = tag)
      then inl (xor_with (keystream key nonce (length body)) body)
      else inr AuthenticationError
  end.

(** Modelled from the spec: the entry points the controller imports from
    utils/cryptoFeatures (not under src/).  A missing passphrase is a
    fault of the caller, not an authentication outcome. *)
Definition encryptStream (draw : nat) (data : bytes)
    (passphrase : option string) : bytes + Error :=
  match passphrase with
  | None => inr (TypeError "passphrase must be a string")
  | Some K => let '(salt, nonce) := entropy draw in inl (encrypt data K salt nonce)
  end.

Definition decryptStream (buffer : bytes) (passphrase : option string)
    : bytes + Error :=
  match passphrase with
  | None => inr (TypeError "passphrase must be a string")
  | Some K => decrypt buffer K
  end.
End CryptoFeatures.

(** ** Concrete instances used to run the model *)

(** A magic-number sniffer in the manner of file-type: PDF, PNG and
    Windows executables are recognised, anything else is undefined. *)
Definition has_magic (magic buf : bytes) : bool :=
  bool_decide (take (length magic) buf = magic).

Definition sniff (buf : bytes) : option string :=
  if has_magic [x25; x50; x44; x46]%byte buf then Some "application/pdf"
  else if has_magic [x89; x50; x4e; x47]%byte buf then Some "image/png"
  else if has_magic [x4d; x5a]%byte buf then Some "application/x-msdownload"
  else None.

Module Toy.
(** An instance of the primitives small enough to evaluate.  It offers no
    secrecy; the key is the passphrase and the tag names the key. *)
Definition kdf (passphrase : string) (salt : unit) : string := passphrase.

Definition keystream (key : string) (nonce : unit) (len : nat) : bytes :=
  replicate len "Z"%byte.

Definition mac (key : string) (nonce : unit) (body : bytes) : bytes :=
  String.list_byte_of_string key.

(** The tag is length-prefixed in unary: as many 01 bytes as the tag is
    long, a 00 byte, the tag, then the body. *)
Definition frame (salt nonce : unit) (tag body : bytes) : bytes :=
  replicate (length tag) x01 ++ x00 :: tag ++ body.

Fixpoint read_prefix (k : nat) (buf : bytes) : option (nat * bytes) :=
  match buf with
  | [] => None
  | b :: rest =>
      if decide (b = x00) then Some (k, rest)
      else if decide (b = x01) then read_prefix (S k) rest
      else None
  end.

Definition unframe (buf : bytes) : option (unit * unit * bytes * bytes) :=
  match read_prefix 0 buf with
  | Some (k, rest) =>
      if decide (k ≤ length rest) then Some (tt, tt, take k rest, drop k rest)
      else None
  | None => None
  end.

Definition entropy (draw : nat) : unit * unit := (tt, tt).

Definition encryptStream := encryptStream kdf keystream mac frame entropy.
Definition decryptStream := decryptStream kdf keystream mac unframe.
End Toy.

Module Demo.
(** A small deployment: two identities, an allow-list of PDF and PNG, one
    key of alice, and a few files. *)
Definition alice : Jwt.t := Jwt.mk "alice".
Definition bob : Jwt.t := Jwt.mk "bob".

Definition whiteList : list string := ["application/pdf"; "image/png"].

Definition correctPassphrase (candidate hash : string) : bool :=
  bool_decide ("hash:" +:+ candidate = hash).

Definition key1 : KeyModel.t := KeyModel.mk "main" "alice" "hash:correct-horse" 0.

Definition world0 : World := mkWorld {["k1" := key1]} GridFS.empty.

Definition report : File.t :=
  File.mk "report.pdf" (String.list_byte_of_string "%PDF-1.4 report") 15
    "application/pdf" "0f343b0931126a20f133d67c2b018a3b".

Definition notes : File.t :=
  File.mk "notes.txt" (String.list_byte_of_string "plain notes") 11
    "text/plain" "5d41402abc4b2a76b9719d911017c592".

Definition setup : File.t :=
  File.mk "setup.exe" (String.list_byte_of_string "MZ-setup") 8
    "application/pdf" "7d793037a0760186574b0282f2f435e7".

Definition post (who : Jwt.t) (keyID passphrase : string)
    (field : option FileField) : Req.t :=
  Req.mk "POST" who (Some keyID) (Some passphrase) None None "" field.

Definition get (who : Jwt.t) (keyID passphrase name : string) : Req.t :=
  Req.mk "GET" who None None (Some keyID) (Some passphrase) name None.

Definition uploadFiles : Handler :=
  uploadFiles Toy.encryptStream "Tue Nov 03 2026" (λ _, "0.000").

Definition download : Handler := download Toy.decryptStream.

Definition uploadRoute : list Handler :=
  uploadRoute whiteList sniff correctPassphrase Toy.encryptStream
    "Tue Nov 03 2026" (λ _, "0.000").

(** alice has uploaded report.pdf once, and twice. *)
Definition world1 : World :=
  (uploadFiles world0 (post alice "k1" "correct-horse" (Some (OneFile report)))).1.
Definition world2 : World :=
  (uploadFiles world1 (post alice "k1" "correct-horse" (Some (OneFile report)))).1.

(** The files document of alice's first upload. *)
Definition reportDoc : GridFS.FileDoc :=
  GridFS.mkFileDoc 0 "report.pdf" "application/pdf" 15
    (GridFS.mkMetadata "alice" "0f343b0931126a20f133d67c2b018a3b"
       (GridFS.mkInfo "report.pdf" "Tue Nov 03 2026" "Tue Nov 03 2026" "0.000"
          "application/pdf")).

(** bob, not alice, has uploaded report.pdf. *)
Definition worldB : World :=
  (uploadFiles world0 (post bob "k1" "correct-horse" (Some (OneFile report)))).1.
End Demo.

(** ** Vocabulary for the further properties *)

(** A request field that JavaScript's [!] treats as missing. *)
Definition absent (s : option string) : Prop := s = None ∨ s = Some "".

(** A file whose sniffed type is detected and on the allow-list. *)
Definition allowed (whiteList : list string) (fromBuffer : bytes → option string)
    (file : File.t) : Prop :=
  ∃ mime, fromBuffer (File.data file) = Some mime ∧ mime ∈ whiteList.

(** The owner recorded in a files document. *)
Definition owner (d : GridFS.FileDoc) : string := GridFS.id (GridFS.metadata d).

(** The identity a request is made under. *)
Definition caller (req : Req.t) : string := Jwt.id (jwtDecoder (Req.cookies_jwt req)).

(** A call of next with an AppError of status 403. *)
Definition is_403 (ev : Event) : Prop :=
  ∃ msg, ev = Next (Some (AppError msg (Some 403))).

(** The object a request for (owner, filename) resolves to, if any: the
    first match of the query. *)
Definition resolve (b : GridFS.Bucket) (id name : string) : option GridFS.FileDoc :=
  head (GridFS.find b (GridFS.ByOwnerAndFilename id name)).

(** ** The order in which the uploads of a batch complete *)

(** uploadFiles awaits encryptStream for each file but never the pipe into
    the upload stream, so the uploads of a batch run side by side and their
    files documents are written in the order in which they complete; the
    ids are handed out, and encryptStream is called, in batch order.
    [landed b b' b''] says that [b''] is the bucket [b'], computed from [b]
    in batch order, as some completion order leaves it: the same ids, the
    same chunks for every object, and the files documents written since [b]
    in any order. *)
Definition landed (b b' b'' : GridFS.Bucket) : Prop :=
  ∃ docs' docs'',
    GridFS.files b' = GridFS.files b ++ docs'
    ∧ GridFS.files b'' = GridFS.files b ++ docs''
    ∧ docs'' ≡ₚ docs'
    ∧ (∀ fileID, GridFS.openDownloadStream b'' fileID
                 = GridFS.openDownloadStream b' fileID)
    ∧ GridFS.next_id b'' = GridFS.next_id b'.

(** ** The bucket invariant with unique ids *)

(** No two files documents share an [_id] (ObjectIds are unique). *)
Definition unique_ids (b : GridFS.Bucket) : Prop :=
  NoDup (GridFS._id <$> GridFS.files b).

Definition bucket_inv (b : GridFS.Bucket) : Prop :=
  GridFS.wf b ∧ unique_ids b.

(** ** Sequences of requests *)

Inductive Endpoint :=
  | CheckType
  | CheckPassphrase
  | UploadFiles
  | GetAll
  | Download
  | Delete.

Section Serve.
Variable whiteList : list string.
Variable fromBuffer : bytes → option string.
Variable correctPassphrase : string → string → bool.
Variable encryptStream : nat → bytes → option string → bytes + Error.
Variable decryptStream : bytes → option string → bytes + Error.
Variable toDateString : string.
Variable fileSizeMB : nat → string.

(** The exported handler behind an endpoint. *)
Definition serve (e : Endpoint) : Handler :=
  match e with
  | CheckType => checkType whiteList fromBuffer
  | CheckPassphrase => checkPassphrase correctPassphrase
  | UploadFiles => uploadFiles encryptStream toDateString fileSizeMB
  | GetAll => getAll
  | Download => download decryptStream
  | Delete => delete
  end.

(** The world after a sequence of calls, each served to completion. *)
Fixpoint serve_all (calls : list (Endpoint * Req.t)) (w : World) : World :=
  match calls with
  | [] => w
  | (e, req) :: rest => serve_all rest (serve e w req).1
  end.
End Serve.

(** ** The key controller: getAllKey *)

Module KeyController.
(** A Key document as a query without [select("+passphrase")] returns it:
    checkPassphrase has to ask for the passphrase field explicitly. *)
Record KeyView := mkKeyView {
  _id : string;
  name : string;
  user : string;
  times : nat;
}.

Inductive Reply :=
  | Next (err : option Error)
  | ResJson (code : nat) (key : option (list KeyView)).

Definition view (kv : string * KeyModel.t) : KeyView :=
  mkKeyView kv.1 (KeyModel.name kv.2) (KeyModel.user kv.2) (KeyModel.times kv.2).

(** [Key.find({user: id})]: an array, empty when nothing matches. *)
Definition find (keys : gmap string KeyModel.t) (id : string) : list KeyView :=
  view <$> map_to_list (filter (λ kv, KeyModel.user kv.2 = id) keys).

(** What getAllKey does with the result of the query; [None] is a result
    that is null.  The branch for a missing result calls next with an
    AppError that got no status code (the 404 is an argument of next) and
    does not return, so the 200 response follows in every case. *)
Definition getAllKey_reply (key : option (list KeyView)) : list Reply :=
  (if is_null key
   then [Next (Some (AppError "You dont have a key yet, just create one" None))]
   else [])
  ++ [ResJson 200 key].

Definition getAllKey (w : World) (req : Req.t) : list Reply :=
  let id := Jwt.id (jwtDecoder (Req.cookies_jwt req)) in
  getAllKey_reply (Some (find (Key w) id)).
End KeyController.

Module Scenario.
(** An encryptStream that refuses an empty buffer and otherwise is the toy
    one; used to run an upload that fails half way. *)
Definition pickyEncryptStream (draw : nat) (data : bytes)
    (passphrase : option string) : bytes + Error :=
  match data with
  | [] => inr (TypeError "nothing to encrypt")
  | _ => Toy.encryptStream draw data passphrase
  end.

Definition empty : File.t :=
  File.mk "empty.pdf" [] 0 "application/pdf" "d41d8cd98f00b204e9800998ecf8427e".

(** A second version of report.pdf. *)
Definition report2 : File.t :=
  File.mk "report.pdf" (String.list_byte_of_string "%PDF-1.4 revised") 16
    "application/pdf" "9e107d9d372bb6826bd81d3542a419d6".

Definition key2 : KeyModel.t := KeyModel.mk "spare" "bob" "hash:tr0ub4dor" 3.

(** alice and bob each own a key; alice and bob each stored a file. *)
Definition world : World :=
  mkWorld {["k1" := Demo.key1; "k2" := key2]}
    (gridfsBucket
       (Demo.uploadFiles Demo.world1
          (Demo.post Demo.bob "k2" "tr0ub4dor" (Some (OneFile Demo.notes)))).1).
End Scenario.

Module Landing.
(** alice uploads notes.txt and report.pdf in one batch. *)
Definition batch : Req.t :=
  Demo.post Demo.alice "k1" "correct-horse"
    (Some (FileArray [Demo.notes; Demo.report])).

(** The bucket after the batch in batch order, and the same uploads with
    the files document of report.pdf written first. *)
Definition inOrder : GridFS.Bucket :=
  gridfsBucket (Demo.uploadFiles Demo.world0 batch).1.

Definition reportFirst : GridFS.Bucket :=
  GridFS.mkBucket (reverse (GridFS.files inOrder)) (GridFS.chunks inOrder)
    (GridFS.next_id inOrder).
End Landing.

(** * Properties *)

(** ** Bytes and chunks *)

Lemma xor_bits_involutive (x y : bits8) : xor_bits (xor_bits x y) y = x.
Proof.
  destruct x as (x0 & x1 & x2 & x3 & x4 & x5 & x6 & x7).
  destruct y as (y0 & y1 & y2 & y3 & y4 & y5 & y6 & y7).
  cbn [xor_bits].
  by rewrite !xorb_assoc, !xorb_nilpotent, !xorb_false_r.
Qed.

Lemma byte_xor_involutive (a b : byte) : byte_xor (byte_xor a b) b = a.
Proof.
  unfold byte_xor.
  rewrite Byte.to_bits_of_bits, xor_bits_involutive.
  apply Byte.of_bits_to_bits.
Qed.

Lemma xor_with_length (pad buf : bytes) : length (xor_with pad buf) = length buf.
Proof.
  revert pad. induction buf as [|b buf IH]; intros [|p pad]; simpl; auto.
Qed.

(** Applying the same pad twice restores the buffer, whatever the length of
    the pad. *)
Lemma xor_with_involutive (pad buf : bytes) : xor_with pad (xor_with pad buf) = buf.
Proof.
  revert pad. induction buf as [|b buf IH]; intros [|p pad]; simpl; auto.
  by rewrite byte_xor_involutive, IH.
Qed.

Lemma chunked_concat (sz : nat) :
  0 < sz → ∀ fuel buf, length buf ≤ fuel → concat (GridFS.chunked fuel sz buf) = buf.
Proof.
  intros Hsz fuel. induction fuel as [|fuel IH]; intros buf Hlen.
  - destruct buf; [done | simpl in Hlen; lia].
  - destruct buf as [|b buf]; [done |].
    cbn [GridFS.chunked concat]. rewrite IH.
    + apply take_drop.
    + rewrite length_drop. simpl in *. lia.
Qed.

Lemma split_chunks_concat (sz : nat) (buf : bytes) :
  0 < sz → concat (GridFS.split_chunks sz buf) = buf.
Proof. intros Hsz. by apply chunked_concat. Qed.

Lemma effectiveChunkSize_pos (sz : nat) : 0 < GridFS.effectiveChunkSize sz.
Proof.
  unfold GridFS.effectiveChunkSize, GridFS.defaultChunkSize.
  case_decide; lia.
Qed.

(** ** The bucket *)

Lemma filter_all {A} (P : A → Prop) `{!∀ x, Decision (P x)} (l : list A) :
  Forall P l → filter P l = l.
Proof.
  induction 1 as [|x l Hx _ IH]; [done |].
  by rewrite filter_cons_True, IH.
Qed.

Lemma filter_none {A} (P : A → Prop) `{!∀ x, Decision (P x)} (l : list A) :
  Forall (λ x, ¬ P x) l → filter P l = [].
Proof.
  induction 1 as [|x l Hx _ IH]; [done |].
  by rewrite filter_cons_False.
Qed.

Lemma wf_empty : GridFS.wf GridFS.empty.
Proof. split; intros ? Hin; by apply elem_of_nil in Hin. Qed.

Lemma wf_openUploadStream b name cs ctype meta content :
  GridFS.wf b → GridFS.wf (GridFS.openUploadStream b name cs ctype meta content).
Proof.
  intros [Hf Hc]. split; simpl.
  - intros d [Hd | Hd]%elem_of_app.
    + specialize (Hf d Hd). lia.
    + apply list_elem_of_singleton in Hd. subst d. simpl. lia.
  - intros c [Hd | Hd]%elem_of_app.
    + specialize (Hc c Hd). lia.
    + apply elem_of_lookup_imap in Hd as (k & piece & -> & _). simpl. lia.
Qed.

Lemma wf_delete b fid : GridFS.wf b → GridFS.wf (GridFS.delete b fid).
Proof.
  intros [Hf Hc]. split; simpl.
  - intros d [_ Hd]%list_elem_of_filter. by apply Hf.
  - intros c [_ Hd]%list_elem_of_filter. by apply Hc.
Qed.

Lemma filter_chunks_fresh (b : GridFS.Bucket) :
  GridFS.wf b →
  filter (λ c, GridFS.files_id c = GridFS.next_id b) (GridFS.chunks b) = [].
Proof.
  intros [_ Hc]. apply filter_none, Forall_forall.
  intros c Hin Heq. specialize (Hc c Hin). lia.
Qed.

Lemma filter_new_chunks (fid : nat) (pieces : list bytes) :
  GridFS.data <$>
    filter (λ c, GridFS.files_id c = fid)
      (imap (λ k piece, GridFS.mkChunk fid k piece) pieces) = pieces.
Proof.
  rewrite filter_all.
  - rewrite fmap_imap. simpl. induction pieces as [|p ps IH] using rev_ind.
    + done.
    + by rewrite imap_app, IH.
  - apply Forall_forall. intros c (k & piece & -> & _)%elem_of_lookup_imap. done.
Qed.

(** Reading back the object just written yields its chunks, in order. *)
Lemma openDownloadStream_new b name cs ctype meta content :
  GridFS.wf b →
  GridFS.openDownloadStream
    (GridFS.openUploadStream b name cs ctype meta content) (GridFS.next_id b)
  = GridFS.split_chunks (GridFS.effectiveChunkSize cs) content.
Proof.
  intros Hwf. unfold GridFS.openDownloadStream. simpl.
  rewrite filter_app, filter_chunks_fresh by done. simpl.
  apply filter_new_chunks.
Qed.

(** Objects already stored are not disturbed by an upload. *)
Lemma openDownloadStream_old b name cs ctype meta content fid :
  fid ≠ GridFS.next_id b →
  GridFS.openDownloadStream
    (GridFS.openUploadStream b name cs ctype meta content) fid
  = GridFS.openDownloadStream b fid.
Proof.
  intros Hne. unfold GridFS.openDownloadStream. simpl.
  rewrite filter_app, fmap_app.
  rewrite (filter_none _ (imap _ _)), app_nil_r; [done |].
  apply Forall_forall. intros c (k & piece & -> & _)%elem_of_lookup_imap. simpl. congruence.
Qed.

Lemma find_openUploadStream b name cs ctype meta content q :
  GridFS.find (GridFS.openUploadStream b name cs ctype meta content) q
  = GridFS.find b q ++
    filter (λ d, GridFS.matches q d)
      [GridFS.mkFileDoc (GridFS.next_id b) name ctype (GridFS.effectiveChunkSize cs) meta].
Proof. unfold GridFS.find. simpl. by rewrite filter_app. Qed.

Lemma find_delete b fid q :
  GridFS.find (GridFS.delete b fid) q
  = filter (λ d, GridFS._id d ≠ fid) (GridFS.find b q).
Proof.
  unfold GridFS.find. simpl.
  rewrite !list_filter_filter. apply list_filter_iff. tauto.
Qed.

(** After [delete], neither the files document nor a chunk of it is left. *)
Lemma delete_removes b fid :
  Forall (λ d, GridFS._id d ≠ fid) (GridFS.files (GridFS.delete b fid)) ∧
  GridFS.openDownloadStream (GridFS.delete b fid) fid = [].
Proof.
  split.
  - apply Forall_forall. by intros d [? _]%list_elem_of_filter.
  - unfold GridFS.openDownloadStream. simpl.
    rewrite list_filter_filter, filter_none; [done |].
    apply Forall_forall. intros c _. tauto.
Qed.

(** ** checkType *)

Lemma checkType_loop_cases whiteList fromBuffer req fileList :
  is_null (Req.files req) = false →
  (∃ msg, checkType_loop whiteList fromBuffer req fileList
          = ([], Some (TypeError msg))) ∨
  checkType_loop whiteList fromBuffer req fileList
  = ([Next (Some (AppError "File type not allowed" (Some 415)))], None) ∨
  checkType_loop whiteList fromBuffer req fileList = ([Next None], None).
Proof.
  intros Hfiles. induction fileList as [|[file|] rest IH]; cbn [checkType_loop].
  - auto.
  - rewrite Hfiles. destruct (fromBuffer (File.data file)) as [mime|]; [|eauto].
    case_bool_decide; auto.
  - eauto.
Qed.

(** C10.  The branch of checkType that answers 400 "Please provide a file!"
    is never taken: every run of the middleware ends in a fault forwarded to
    next, in the 415 rejection, or in next(); and a request whose req.files
    is null faults with a TypeError (a generic failure) at the first line,
    where req.files.file is read. *)
Theorem checkType_missing_file_branch_unreachable
    (whiteList : list string) (fromBuffer : bytes → option string)
    (w : World) (req : Req.t)
    (method : string) (jwt : Jwt.t) (bkey bpass hkey hpass : option string)
    (name : string) :
  ((∃ msg, checkType whiteList fromBuffer w req
           = (w, [Next (Some (TypeError msg))])) ∨
   checkType whiteList fromBuffer w req
   = (w, [Next (Some (AppError "File type not allowed" (Some 415)))]) ∨
   checkType whiteList fromBuffer w req = (w, [Next None]))
  ∧ checkType whiteList fromBuffer w
      (Req.mk method jwt bkey bpass hkey hpass name None)
    = (w, [Next (Some (TypeError "Cannot read properties of null (reading 'file')"))])
  ∧ error_kind (TypeError "Cannot read properties of null (reading 'file')")
    = GenericFailureK.
Proof.
  split; [|done].
  unfold checkType, catchAsync, checkType_body, fileListOf.
  destruct (Req.files req) as [field|] eqn:Hfiles; [|simpl; eauto].
  assert (is_null (Req.files req) = false) as Hnull by (by rewrite Hfiles).
  set (fileList := match field with
                   | NoField => [None]
                   | OneFile f => [Some f]
                   | FileArray fs => Some <$> fs
                   end).
  replace (match field with
           | NoField => inl [None]
           | OneFile f => inl [Some f]
           | FileArray fs => inl (Some <$> fs)
           end) with (@inl _ Error fileList) by (by destruct field).
  destruct (checkType_loop_cases whiteList fromBuffer req fileList Hnull)
    as [[msg ->] | [-> | ->]]; simpl; eauto.
Qed.

(** ** getAll *)

(** C9.  Every record in the listing that getAll returns for the caller X
    has owner X, hence none is owned by an identity Y different from X. *)
Theorem getAll_lists_only_own_files (w : World) (req : Req.t) :
  let X := Jwt.id (jwtDecoder (Req.cookies_jwt req)) in
  let listing := GridFS.find (gridfsBucket w) (GridFS.ByOwner X) in
  Forall (λ d, GridFS.id (GridFS.metadata d) = X ∧
               ∀ Y, Y ≠ X → GridFS.id (GridFS.metadata d) ≠ Y) listing
  ∧ getAll w req
    = (w, match listing with
          | [] => [ResJson 404 (JsonStatus "failed")]
          | _ => [ResJson 200 (JsonFiles "success" listing)]
          end).
Proof.
  intros X listing. split.
  - apply Forall_forall. intros d [Hm _]%list_elem_of_filter.
    simpl in Hm. apply bool_decide_unpack in Hm. split; [done | congruence].
  - unfold getAll, catchAsync, getAll_body, getAll_cb. simpl.
    fold X. fold listing. destruct listing; by rewrite app_nil_r.
Qed.

(** ** checkPassphrase *)

Lemma truthy_Some (v : string) : v ≠ "" → truthy (Some v) = Some v.
Proof. intros Hv. unfold truthy. by case_decide. Qed.

(** C6.  A verification attempt against a stored key record increments its
    usage counter by exactly one when the passphrase is correct and leaves
    the whole collection unchanged when it is not. *)
Theorem checkPassphrase_counts_successes
    (correctPassphrase : string → string → bool) (w : World) (req : Req.t)
    (keyID passphrase : string) (key : KeyModel.t) :
  credentials req = (Some keyID, Some passphrase) →
  keyID ≠ "" → passphrase ≠ "" →
  Key w !! keyID = Some key →
  if correctPassphrase passphrase (KeyModel.passphrase key) then
    ∃ w', checkPassphrase correctPassphrase w req = (w', [Next None])
          ∧ Key w' = <[keyID := KeyModel.inc_times key]> (Key w)
          ∧ KeyModel.times <$> Key w' !! keyID = Some (KeyModel.times key + 1)
  else
    checkPassphrase correctPassphrase w req
    = (w, [Next (Some (AppError "Incorrect key passphrase" None))]).
Proof.
  intros Hcred Hk Hp Hkey.
  unfold checkPassphrase, catchAsync, checkPassphrase_body.
  rewrite Hcred, !truthy_Some, Hkey by done.
  destruct (correctPassphrase passphrase (KeyModel.passphrase key)); simpl.
  - eexists. split; [done |]. simpl.
    unfold KeyModel.findOneAndUpdate_inc. rewrite Hkey. split; [done |].
    rewrite lookup_insert_eq. simpl. f_equal. lia.
  - done.
Qed.

Lemma checkPassphrase_counts_successes_witness :
  (∃ w', checkPassphrase Demo.correctPassphrase Demo.world0
           (Demo.post Demo.alice "k1" "correct-horse" None) = (w', [Next None])
         ∧ Key w' = <["k1" := KeyModel.inc_times Demo.key1]> (Key Demo.world0)
         ∧ KeyModel.times <$> Key w' !! "k1" = Some (KeyModel.times Demo.key1 + 1))
  ∧ checkPassphrase Demo.correctPassphrase Demo.world0
      (Demo.post Demo.alice "k1" "wrong" None)
    = (Demo.world0, [Next (Some (AppError "Incorrect key passphrase" None))]).
Proof.
  split.
  - apply (checkPassphrase_counts_successes Demo.correctPassphrase Demo.world0
             (Demo.post Demo.alice "k1" "correct-horse" None)
             "k1" "correct-horse" Demo.key1); done.
  - apply (checkPassphrase_counts_successes Demo.correctPassphrase Demo.world0
             (Demo.post Demo.alice "k1" "wrong" None)
             "k1" "wrong" Demo.key1); done.
Defined.

(** C8.  A verification request naming a key that is not stored: findOne
    yields null, the method call on it faults, and the caller receives the
    TypeError as a generic failure, not a NotFoundError. *)
Theorem checkPassphrase_unknown_key_faults :
  checkPassphrase Demo.correctPassphrase Demo.world0
    (Demo.post Demo.alice "k2" "correct-horse" None)
  = (Demo.world0,
     [Next (Some (TypeError "Cannot read properties of null (reading 'correctPassphrase')"))])
  ∧ error_kind (TypeError "Cannot read properties of null (reading 'correctPassphrase')")
    = GenericFailureK
  ∧ GenericFailureK ≠ NotFoundErrorK.
Proof. done. Qed.

Lemma checkPassphrase_unknown_key correctPassphrase w req keyID passphrase :
  credentials req = (Some keyID, Some passphrase) →
  keyID ≠ "" → passphrase ≠ "" →
  Key w !! keyID = None →
  checkPassphrase correctPassphrase w req
  = (w, [Next (Some (TypeError "Cannot read properties of null (reading 'correctPassphrase')"))]).
Proof.
  intros Hcred Hk Hp Hkey.
  unfold checkPassphrase, catchAsync, checkPassphrase_body.
  by rewrite Hcred, !truthy_Some, Hkey.
Qed.

(** ** uploadFiles *)

Lemma uploadFiles_loop_succeeds encryptStream now fileSizeMB (id K : string)
    (fs : list File.t) :
  (∀ draw data, ∃ storageData, encryptStream draw data (Some K) = inl storageData) →
  ∀ b, ∃ b',
    uploadFiles_loop encryptStream now fileSizeMB id (Some K) b (Some <$> fs) = (b', None).
Proof.
  intros Henc. induction fs as [|file fs IH]; intros b.
  - by exists b.
  - cbn [fmap list_fmap uploadFiles_loop].
    destruct (Henc (GridFS.next_id b) (File.data file)) as [storageData ->].
    apply IH.
Qed.

(** The files documents an upload that ran through leaves behind: the old
    ones, then one per file of the batch, numbered from the next fresh id. *)
Lemma uploadFiles_loop_files encryptStream now fileSizeMB (id : string)
    (passphrase : option string) (fs : list File.t) :
  ∀ b b',
    uploadFiles_loop encryptStream now fileSizeMB id passphrase b (Some <$> fs)
    = (b', None) →
    GridFS.next_id b' = GridFS.next_id b + length fs
    ∧ GridFS.files b'
      = GridFS.files b
        ++ imap (λ i file, uploadedDoc now fileSizeMB id (GridFS.next_id b + i) file) fs.
Proof.
  induction fs as [|file fs IH]; intros b b' Hloop.
  - simpl in Hloop. injection Hloop as <-. simpl. rewrite app_nil_r.
    split; [lia | done].
  - cbn [fmap list_fmap uploadFiles_loop] in Hloop.
    destruct (encryptStream (GridFS.next_id b) (File.data file) passphrase)
      as [storageData | e]; [|discriminate].
    set (b1 := GridFS.openUploadStream b _ _ _ _ _) in Hloop.
    destruct (IH b1 b' Hloop) as (Hnext & Hfiles).
    simpl in Hnext. split; [simpl; lia |].
    rewrite Hfiles, imap_cons. simpl. rewrite <- app_assoc. simpl.
    unfold uploadedDoc at 2. rewrite Nat.add_0_r. do 2 f_equal.
    apply imap_ext. intros i f _. simpl. f_equal. lia.
Qed.

(** The chunks an upload leaves behind: those of older objects are as they
    were, and those of the object with index [i] in the batch are the cut-up
    output of encryptStream for that file. *)
Lemma uploadFiles_loop_chunks encryptStream now fileSizeMB (id : string)
    (passphrase : option string) (fs : list File.t) :
  ∀ b b',
    GridFS.wf b →
    uploadFiles_loop encryptStream now fileSizeMB id passphrase b (Some <$> fs)
    = (b', None) →
    GridFS.wf b'
    ∧ (∀ fid, fid < GridFS.next_id b →
              GridFS.openDownloadStream b' fid = GridFS.openDownloadStream b fid)
    ∧ (∀ i file storageData,
         fs !! i = Some file →
         encryptStream (GridFS.next_id b + i) (File.data file) passphrase
         = inl storageData →
         GridFS.openDownloadStream b' (GridFS.next_id b + i)
         = GridFS.split_chunks (GridFS.effectiveChunkSize (File.size file)) storageData).
Proof.
  induction fs as [|file fs IH]; intros b b' Hwf Hloop.
  - simpl in Hloop. injection Hloop as <-. split; [done |]. split; [done |].
    intros i file storageData Hi. by rewrite lookup_nil in Hi.
  - cbn [fmap list_fmap uploadFiles_loop] in Hloop.
    destruct (encryptStream (GridFS.next_id b) (File.data file) passphrase)
      as [storageData0 | e] eqn:Henc; [|discriminate].
    set (b1 := GridFS.openUploadStream b _ _ _ _ _) in Hloop.
    assert (GridFS.wf b1) as Hwf1 by (by apply wf_openUploadStream).
    destruct (IH b1 b' Hwf1 Hloop) as (Hwf' & Hold & Hnew).
    assert (GridFS.next_id b1 = S (GridFS.next_id b)) as Hnext by done.
    split; [done |]. split.
    + intros fid Hfid. rewrite Hold by lia.
      apply openDownloadStream_old. lia.
    + intros [|i] f storageData Hi Hct.
      * simpl in Hi. injection Hi as <-. rewrite Nat.add_0_r in *.
        rewrite Hold by lia. rewrite Henc in Hct. injection Hct as <-.
        by apply openDownloadStream_new.
      * simpl in Hi. replace (GridFS.next_id b + S i) with (GridFS.next_id b1 + i) in * by lia.
        by apply Hnew.
Qed.

Lemma uploadedDoc_fields now fileSizeMB (id : string) (fileID : nat) (file : File.t) :
  GridFS._id (uploadedDoc now fileSizeMB id fileID file) = fileID
  ∧ GridFS.filename (uploadedDoc now fileSizeMB id fileID file) = File.name file
  ∧ GridFS.id (GridFS.metadata (uploadedDoc now fileSizeMB id fileID file)) = id.
Proof. done. Qed.

Lemma uploadFiles_answers_200 encryptStream now fileSizeMB
    (w : World) (req : Req.t) (K : string) (fs : list File.t) :
  (∀ draw data, ∃ storageData, encryptStream draw data (Some K) = inl storageData) →
  Req.body_passphrase req = Some K →
  fileListOf req = inl (Some <$> fs) →
  ∃ b',
    uploadFiles_loop encryptStream now fileSizeMB (Jwt.id (Req.cookies_jwt req))
      (Some K) (gridfsBucket w) (Some <$> fs) = (b', None)
    ∧ uploadFiles encryptStream now fileSizeMB w req
      = (mkWorld (Key w) b', [ResJson 200 (JsonStatus "success")]).
Proof.
  intros Henc Hpass Hfiles.
  destruct (uploadFiles_loop_succeeds encryptStream now fileSizeMB
              (Jwt.id (Req.cookies_jwt req)) K fs Henc (gridfsBucket w))
    as (b' & Hloop).
  exists b'. split; [done |].
  unfold uploadFiles, catchAsync, uploadFiles_body, jwtDecoder.
  by rewrite Hfiles, Hpass, Hloop.
Qed.

(** C5, as the code has it.  uploadFiles looks nothing up before it writes:
    when the batch encrypts, the upload answers 200 and appends one object
    per file, under a fresh id, the file's name and the caller's identity,
    whatever the bucket already holds; objects stored before are all kept. *)
Theorem uploadFiles_adds_without_conflict encryptStream now fileSizeMB
    (w : World) (req : Req.t) (K : string) (fs : list File.t) :
  (∀ draw data, ∃ storageData, encryptStream draw data (Some K) = inl storageData) →
  Req.body_passphrase req = Some K →
  fileListOf req = inl (Some <$> fs) →
  ∃ b',
    uploadFiles encryptStream now fileSizeMB w req
    = (mkWorld (Key w) b', [ResJson 200 (JsonStatus "success")])
    ∧ GridFS.files b'
      = GridFS.files (gridfsBucket w)
        ++ imap (λ i file,
                   uploadedDoc now fileSizeMB (Jwt.id (Req.cookies_jwt req))
                     (GridFS.next_id (gridfsBucket w) + i) file) fs
    ∧ ∀ q, GridFS.find b' q
           = GridFS.find (gridfsBucket w) q
             ++ filter (λ d, GridFS.matches q d)
                  (imap (λ i file,
                     uploadedDoc now fileSizeMB (Jwt.id (Req.cookies_jwt req))
                       (GridFS.next_id (gridfsBucket w) + i) file) fs).
Proof.
  intros Henc Hpass Hfiles.
  destruct (uploadFiles_answers_200 encryptStream now fileSizeMB w req K fs
              Henc Hpass Hfiles) as (b' & Hloop & Hup).
  destruct (uploadFiles_loop_files _ _ _ _ _ _ _ _ Hloop) as (_ & Hdocs).
  exists b'. split; [done |]. split; [done |].
  intros q. unfold GridFS.find. by rewrite Hdocs, filter_app.
Qed.

(** ** The cipher *)

Section CryptoProofs.
Context {Salt Nonce SecretKey Tag : Type} `{!EqDecision Tag}.
Variable kdf : string → Salt → SecretKey.
Variable keystream : SecretKey → Nonce → nat → bytes.
Variable mac : SecretKey → Nonce → bytes → Tag.
Variable frame : Salt → Nonce → Tag → bytes → bytes.
Variable unframe : bytes → option (Salt * Nonce * Tag * bytes).
Variable entropy : nat → Salt * Nonce.

(** The output is self-contained: salt, nonce, tag and body can be read
    back from it. *)
Hypothesis unframe_frame :
  ∀ salt nonce tag body, unframe (frame salt nonce tag body) = Some (salt, nonce, tag, body).

Local Abbreviation encrypt' := (encrypt kdf keystream mac frame).
Local Abbreviation decrypt' := (decrypt kdf keystream mac unframe).
Local Abbreviation encryptStream' := (encryptStream kdf keystream mac frame entropy).
Local Abbreviation decryptStream' := (decryptStream kdf keystream mac unframe).

Lemma decrypt_encrypt (P : bytes) (K : string) (salt : Salt) (nonce : Nonce) :
  decrypt' (encrypt' P K salt nonce) K = inl P.
Proof using unframe_frame.
  unfold decrypt, encrypt. rewrite unframe_frame.
  case_decide; [|done].
  by rewrite xor_with_length, xor_with_involutive.
Qed.

Lemma encryptStream_total (K : string) :
  ∀ draw data, ∃ storageData, encryptStream' draw data (Some K) = inl storageData.
Proof using Type.
  intros draw data. unfold encryptStream. destruct (entropy draw). eauto.
Qed.

Lemma encryptStream_Some (K : string) (draw : nat) (data : bytes) :
  encryptStream' draw data (Some K)
  = inl (encrypt' data K (entropy draw).1 (entropy draw).2).
Proof using Type. unfold encryptStream. by destruct (entropy draw). Qed.

End CryptoProofs.

(** The toy wire format can be read back. *)

Lemma toy_read_prefix (k m : nat) (rest : bytes) :
  Toy.read_prefix k (replicate m x01 ++ x00 :: rest) = Some (k + m, rest).
Proof.
  revert k. induction m as [|m IH]; intros k; simpl.
  - f_equal. f_equal. lia.
  - rewrite IH. f_equal. f_equal. lia.
Qed.

Lemma toy_unframe_frame (salt nonce : unit) (tag body : bytes) :
  Toy.unframe (Toy.frame salt nonce tag body) = Some (salt, nonce, tag, body).
Proof.
  destruct salt, nonce. unfold Toy.unframe, Toy.frame.
  rewrite toy_read_prefix. simpl.
  rewrite decide_True by (rewrite length_app; lia).
  by rewrite take_app_length, drop_app_length.
Qed.

Lemma uploadFiles_adds_without_conflict_witness :
  ∃ b',
    Demo.uploadFiles Demo.world1
      (Demo.post Demo.alice "k1" "correct-horse" (Some (OneFile Demo.report)))
    = (mkWorld (Key Demo.world1) b', [ResJson 200 (JsonStatus "success")])
    ∧ GridFS.files b'
      = GridFS.files (gridfsBucket Demo.world1)
        ++ imap (λ i file,
                   uploadedDoc "Tue Nov 03 2026" (λ _, "0.000") "alice"
                     (GridFS.next_id (gridfsBucket Demo.world1) + i) file)
             [Demo.report]
    ∧ ∀ q, GridFS.find b' q
           = GridFS.find (gridfsBucket Demo.world1) q
             ++ filter (λ d, GridFS.matches q d)
                  (imap (λ i file,
                     uploadedDoc "Tue Nov 03 2026" (λ _, "0.000") "alice"
                       (GridFS.next_id (gridfsBucket Demo.world1) + i) file)
                     [Demo.report]).
Proof.
  apply (uploadFiles_adds_without_conflict Toy.encryptStream
           "Tue Nov 03 2026" (λ _, "0.000") Demo.world1
           (Demo.post Demo.alice "k1" "correct-horse" (Some (OneFile Demo.report)))
           "correct-horse" [Demo.report]); [| reflexivity | reflexivity].
  intros draw data. eexists. reflexivity.
Defined.

(** C5 as stated fails: alice uploads report.pdf, then uploads report.pdf
    again.  The second upload answers 200, not a conflict, and two stored
    objects carry the pair (alice, report.pdf). *)
Lemma second_upload_same_name_succeeds :
  Demo.uploadFiles Demo.world1
    (Demo.post Demo.alice "k1" "correct-horse" (Some (OneFile Demo.report)))
  = (Demo.world2, [ResJson 200 (JsonStatus "success")])
  ∧ (GridFS._id <$> GridFS.find (gridfsBucket Demo.world2)
                     (GridFS.ByOwnerAndFilename "alice" "report.pdf")) = [0; 1].
Proof. split; reflexivity. Qed.

(** ** delete *)

(** C7, as the code has it.  When the pair (owner, filename) names exactly
    one stored object, delete answers 200 and removes its files document
    together with all of its chunks, and a download of the same pair then
    fails with 404 "Not found!". *)
Theorem delete_then_download_not_found decryptStream
    (w : World) (req down : Req.t) (d : GridFS.FileDoc) :
  GridFS.find (gridfsBucket w)
    (GridFS.ByOwnerAndFilename (Jwt.id (Req.cookies_jwt req)) (Req.params_name req))
  = [d] →
  Req.cookies_jwt down = Req.cookies_jwt req →
  Req.params_name down = Req.params_name req →
  let w' := mkWorld (Key w) (GridFS.delete (gridfsBucket w) (GridFS._id d)) in
  delete w req = (w', [ResJson 200 (JsonStatus "success")])
  ∧ Forall (λ d', GridFS._id d' ≠ GridFS._id d) (GridFS.files (gridfsBucket w'))
  ∧ GridFS.openDownloadStream (gridfsBucket w') (GridFS._id d) = []
  ∧ download decryptStream w' down
    = (w', [Next (Some (AppError "Not found!" (Some 404)))])
  ∧ error_kind (AppError "Not found!" (Some 404)) = NotFoundErrorK.
Proof.
  intros Hfind Hjwt Hname w'.
  assert (GridFS.id (GridFS.metadata d) = Jwt.id (Req.cookies_jwt req)) as Howner.
  { assert (d ∈ [d]) as Hmem by apply list_elem_of_here.
    rewrite <- Hfind in Hmem. apply list_elem_of_filter in Hmem as [Hm _].
    simpl in Hm. by apply andb_prop_elim in Hm as [Ho%bool_decide_unpack _]. }
  split.
  { unfold delete, catchAsync, delete_body, delete_cb, jwtDecoder.
    rewrite Hfind. by rewrite decide_False by (intros Hne; by apply Hne). }
  destruct (delete_removes (gridfsBucket w) (GridFS._id d)) as [Hdocs Hchunks].
  split; [exact Hdocs |]. split; [exact Hchunks |]. split; [| done].
  unfold download, catchAsync, download_body, download_cb, jwtDecoder.
  rewrite Hjwt, Hname. subst w'. cbn [gridfsBucket world events thrown].
  rewrite find_delete, Hfind.
  by rewrite filter_cons_False by (intros Hne; by apply Hne).
Qed.

Lemma delete_then_download_not_found_witness :
  let w' := mkWorld (Key Demo.world1)
              (GridFS.delete (gridfsBucket Demo.world1) (GridFS._id Demo.reportDoc)) in
  delete Demo.world1 (Demo.get Demo.alice "k1" "correct-horse" "report.pdf")
  = (w', [ResJson 200 (JsonStatus "success")])
  ∧ Forall (λ d', GridFS._id d' ≠ GridFS._id Demo.reportDoc)
      (GridFS.files (gridfsBucket w'))
  ∧ GridFS.openDownloadStream (gridfsBucket w') (GridFS._id Demo.reportDoc) = []
  ∧ Demo.download w' (Demo.get Demo.alice "k1" "correct-horse" "report.pdf")
    = (w', [Next (Some (AppError "Not found!" (Some 404)))])
  ∧ error_kind (AppError "Not found!" (Some 404)) = NotFoundErrorK.
Proof.
  apply (delete_then_download_not_found Toy.decryptStream Demo.world1
           (Demo.get Demo.alice "k1" "correct-horse" "report.pdf")
           (Demo.get Demo.alice "k1" "correct-horse" "report.pdf")
           Demo.reportDoc); reflexivity.
Defined.

(** C7 as stated fails: alice has uploaded report.pdf twice.  Deleting
    report.pdf answers 200 and removes the older object; the download that
    follows finds the younger one and pipes its content instead of failing
    with 404. *)
Lemma delete_leaves_namesake :
  let req := Demo.get Demo.alice "k1" "correct-horse" "report.pdf" in
  (delete Demo.world2 req).2 = [ResJson 200 (JsonStatus "success")]
  ∧ (Demo.download (delete Demo.world2 req).1 req).2
    = [ResSet [("Accept-Ranges", "bytes");
               ("Content-Disposition", "attachment; filename=report.pdf");
               ("Content-Type", "application/pdf")];
       ResPipe (File.data Demo.report)]
  ∧ (Demo.download (delete Demo.world2 req).1 req).2
    ≠ [Next (Some (AppError "Not found!" (Some 404)))].
Proof. split; [reflexivity |]. split; [reflexivity | discriminate]. Qed.

(** ** Ownership on download *)

(** C3, as the code has it.  When every stored object carrying the requested
    filename belongs to someone else, download fails with 404 "Not found!"
    and sends nothing: the query is filtered by owner.  The callback also
    compares the owner recorded in the first returned record with the
    caller and signals 403 "Permission denied!" to next when they differ. *)
Theorem download_foreign_file_not_found decryptStream (w : World) (req : Req.t) :
  Forall (λ d, GridFS.filename d = Req.params_name req →
               GridFS.id (GridFS.metadata d) ≠ Jwt.id (Req.cookies_jwt req))
    (GridFS.files (gridfsBucket w)) →
  download decryptStream w req
  = (w, [Next (Some (AppError "Not found!" (Some 404)))])
  ∧ error_kind (AppError "Not found!" (Some 404)) = NotFoundErrorK
  ∧ (∀ b id name file0 rest,
       GridFS.id (GridFS.metadata file0) ≠ id →
       ∃ evs, download_cb decryptStream b req id name (Some (file0 :: rest))
              = Next (Some (AppError "Permission denied!" (Some 403))) :: evs)
  ∧ error_kind (AppError "Permission denied!" (Some 403)) = ForbiddenErrorK.
Proof.
  intros Hforeign. split; [| split; [done | split; [| done]]].
  - unfold download, catchAsync, download_body, download_cb, jwtDecoder, GridFS.find.
    rewrite filter_none; [done |].
    eapply Forall_impl; [exact Hforeign |]. simpl.
    intros d Hd [Ho%bool_decide_unpack Hn%bool_decide_unpack]%andb_prop_elim.
    by apply Hd.
  - intros b id name file0 rest Hne. unfold download_cb.
    rewrite decide_True by done. simpl. eauto.
Qed.

Lemma download_foreign_file_not_found_witness :
  Demo.download Demo.worldB (Demo.get Demo.alice "k1" "correct-horse" "report.pdf")
  = (Demo.worldB, [Next (Some (AppError "Not found!" (Some 404)))])
  ∧ error_kind (AppError "Not found!" (Some 404)) = NotFoundErrorK
  ∧ (∀ b id name file0 rest,
       GridFS.id (GridFS.metadata file0) ≠ id →
       ∃ evs, download_cb Toy.decryptStream b
                (Demo.get Demo.alice "k1" "correct-horse" "report.pdf")
                id name (Some (file0 :: rest))
              = Next (Some (AppError "Permission denied!" (Some 403))) :: evs)
  ∧ error_kind (AppError "Permission denied!" (Some 403)) = ForbiddenErrorK.
Proof.
  apply (download_foreign_file_not_found Toy.decryptStream Demo.worldB
           (Demo.get Demo.alice "k1" "correct-horse" "report.pdf")).
  repeat constructor. simpl. discriminate.
Defined.

(** C3 as stated fails: report.pdf is stored with owner bob and alice asks
    for it.  The answer is 404 "Not found!", a NotFoundError, and not a
    ForbiddenError. *)
Lemma download_foreign_file_is_not_forbidden :
  (λ d, GridFS.id (GridFS.metadata d)) <$> GridFS.files (gridfsBucket Demo.worldB)
  = ["bob"]
  ∧ GridFS.filename <$> GridFS.files (gridfsBucket Demo.worldB) = ["report.pdf"]
  ∧ Demo.download Demo.worldB (Demo.get Demo.alice "k1" "correct-horse" "report.pdf")
    = (Demo.worldB, [Next (Some (AppError "Not found!" (Some 404)))])
  ∧ error_kind (AppError "Not found!" (Some 404)) ≠ ForbiddenErrorK.
Proof. repeat split; try reflexivity. discriminate. Qed.

(** The 403 branch of download has no return: on a record of another owner
    the callback signals 403 and still goes on to stream the content. *)
Example download_cb_falls_through_after_403 :
  download_cb Toy.decryptStream (gridfsBucket Demo.worldB)
    (Demo.get Demo.alice "k1" "correct-horse" "report.pdf") "alice" "report.pdf"
    (Some (GridFS.files (gridfsBucket Demo.worldB)))
  = [Next (Some (AppError "Permission denied!" (Some 403)));
     ResSet [("Accept-Ranges", "bytes");
             ("Content-Disposition", "attachment; filename=report.pdf");
             ("Content-Type", "application/pdf")];
     ResPipe (File.data Demo.report)].
Proof. reflexivity. Qed.

(** ** The upload gate *)

Lemma checkType_loop_blocks whiteList fromBuffer req (fs : list File.t) :
  is_null (Req.files req) = false →
  Exists (λ file, ∀ mime, fromBuffer (File.data file) = Some mime → mime ∉ whiteList) fs →
  calls_next (checkType_loop whiteList fromBuffer req (Some <$> fs)).1 = false.
Proof.
  intros Hnull. induction fs as [|file fs IH]; intros Hex.
  - by apply Exists_nil in Hex.
  - cbn [fmap list_fmap checkType_loop]. rewrite Hnull.
    destruct (fromBuffer (File.data file)) as [mime|] eqn:Hsniff; [|done].
    case_bool_decide as Hallowed; [|done].
    apply IH. apply Exists_cons in Hex as [Hbad | Hex]; [|done].
    by destruct (Hbad mime).
Qed.

Lemma calls_next_error (evs : list Event) (e : Error) :
  calls_next (evs ++ [Next (Some e)]) = calls_next evs.
Proof.
  unfold calls_next. rewrite existsb_app. simpl. by rewrite !orb_false_r.
Qed.

(** A batch holding a file whose sniffed type is not on the allow-list, or
    is not detected at all, never gets past checkType. *)
Lemma checkType_blocks_batch whiteList fromBuffer w req (fs : list File.t) :
  Req.files req = Some (FileArray fs) →
  Exists (λ file, ∀ mime, fromBuffer (File.data file) = Some mime → mime ∉ whiteList) fs →
  ∃ evs, checkType whiteList fromBuffer w req = (w, evs) ∧ calls_next evs = false.
Proof.
  intros Hfiles Hex.
  assert (is_null (Req.files req) = false) as Hnull by (by rewrite Hfiles).
  pose proof (checkType_loop_blocks whiteList fromBuffer req fs Hnull Hex) as Hloop.
  unfold checkType, catchAsync, checkType_body, fileListOf. rewrite Hfiles.
  destruct (checkType_loop _ _ _ _) as [evs [e|]]; simpl in *.
  - eexists. split; [done |]. by rewrite calls_next_error.
  - eexists. split; [done |]. by rewrite app_nil_r.
Qed.

Lemma checkPassphrase_keeps_bucket correctPassphrase w req :
  gridfsBucket (checkPassphrase correctPassphrase w req).1 = gridfsBucket w.
Proof.
  unfold checkPassphrase, catchAsync, checkPassphrase_body.
  destruct (credentials req) as [keyID passphrase].
  destruct (truthy keyID), (truthy passphrase); try done.
  destruct (Key w !! _); [|done].
  by destruct (negb _).
Qed.

(** Such a batch leaves the bucket as it was: nothing of it is stored. *)
Lemma uploadRoute_blocked_stores_nothing whiteList fromBuffer correctPassphrase
    encryptStream now fileSizeMB w req (fs : list File.t) :
  Req.files req = Some (FileArray fs) →
  Exists (λ file, ∀ mime, fromBuffer (File.data file) = Some mime → mime ∉ whiteList) fs →
  gridfsBucket
    (run_route (uploadRoute whiteList fromBuffer correctPassphrase encryptStream
                  now fileSizeMB) w req).1
  = gridfsBucket w.
Proof.
  intros Hfiles Hex. unfold uploadRoute. cbn [run_route].
  pose proof (checkPassphrase_keeps_bucket correctPassphrase w req) as Hkeep.
  destruct (checkPassphrase correctPassphrase w req) as [w1 evs1]. simpl in Hkeep.
  destruct (calls_next evs1); [|done].
  destruct (checkType_blocks_batch whiteList fromBuffer w1 req fs Hfiles Hex)
    as (evs2 & -> & ->).
  done.
Qed.

(** C4.  alice uploads a batch of notes.txt, whose bytes carry no known
    magic number, and setup.exe, whose sniffed type is not on the
    allow-list.  The batch is turned away and nothing is stored, but the
    failure the caller receives is the TypeError raised when [.mime] is read
    off the undefined detection result, a generic failure, and not the
    415 rejection.  The same holds for notes.txt uploaded on its own. *)
Theorem uploadRoute_undetected_type_faults :
  let batch := Demo.post Demo.alice "k1" "correct-horse"
                 (Some (FileArray [Demo.notes; Demo.setup])) in
  let single := Demo.post Demo.alice "k1" "correct-horse"
                  (Some (OneFile Demo.notes)) in
  let fault := TypeError "Cannot read properties of undefined (reading 'mime')" in
  sniff (File.data Demo.notes) = None
  ∧ sniff (File.data Demo.setup) = Some "application/x-msdownload"
  ∧ bool_decide ("application/x-msdownload" ∈ Demo.whiteList) = false
  ∧ checkType Demo.whiteList sniff Demo.world0 batch
    = (Demo.world0, [Next (Some fault)])
  ∧ (run_route Demo.uploadRoute Demo.world0 batch).2
    = [Next None; Next (Some fault)]
  ∧ (run_route Demo.uploadRoute Demo.world0 single).2
    = [Next None; Next (Some fault)]
  ∧ error_kind fault = GenericFailureK
  ∧ error_kind fault ≠ UnsupportedTypeErrorK
  ∧ gridfsBucket (run_route Demo.uploadRoute Demo.world0 batch).1 = GridFS.empty.
Proof. repeat split; try reflexivity. discriminate. Qed.

(** With the executable first the same batch does get the 415 rejection. *)
Example uploadRoute_detected_type_rejected :
  (run_route Demo.uploadRoute Demo.world0
     (Demo.post Demo.alice "k1" "correct-horse"
        (Some (FileArray [Demo.setup; Demo.notes])))).2
  = [Next None; Next (Some (AppError "File type not allowed" (Some 415)))].
Proof. reflexivity. Qed.

(** ** The bucket invariant is kept by the handlers that write *)

Lemma uploadFiles_loop_wf encryptStream now fileSizeMB id passphrase fileList :
  ∀ b, GridFS.wf b →
       GridFS.wf (uploadFiles_loop encryptStream now fileSizeMB id passphrase b fileList).1.
Proof.
  induction fileList as [|[file|] rest IH]; intros b Hwf; cbn [uploadFiles_loop]; try done.
  destruct (encryptStream _ _ _) as [storageData | e]; [|done].
  by apply IH, wf_openUploadStream.
Qed.

Lemma uploadFiles_wf encryptStream now fileSizeMB w req :
  GridFS.wf (gridfsBucket w) →
  GridFS.wf (gridfsBucket (uploadFiles encryptStream now fileSizeMB w req).1).
Proof.
  intros Hwf. unfold uploadFiles, catchAsync, uploadFiles_body.
  destruct (fileListOf req) as [fileList | e]; [|done].
  pose proof (uploadFiles_loop_wf encryptStream now fileSizeMB
                (Jwt.id (jwtDecoder (Req.cookies_jwt req)))
                (Req.body_passphrase req) fileList (gridfsBucket w) Hwf) as Hloop.
  destruct (uploadFiles_loop _ _ _ _ _ _ _) as [b [e|]]; exact Hloop.
Qed.

Lemma delete_wf w req :
  GridFS.wf (gridfsBucket w) → GridFS.wf (gridfsBucket (delete w req).1).
Proof.
  intros Hwf. unfold delete, catchAsync, delete_body, delete_cb.
  destruct (GridFS.find _ _) as [|file0 rest]; [done |].
  case_decide; [done |]. by apply wf_delete.
Qed.

(** * Further properties of the controller *)

(** ** checkPassphrase: which requests are turned away for want of
       credentials, and what a verification can change *)

Lemma truthy_None_iff (s : option string) : truthy s = None ↔ absent s.
Proof.
  unfold truthy, absent. destruct s as [v|]; [|by split; [left |]].
  case_decide as Hv.
  - subst v. by split; [right |].
  - split; [discriminate |]. intros [? | [= ->]]; done.
Qed.

Lemma checkPassphrase_cases correctPassphrase w req :
  (checkPassphrase correctPassphrase w req
   = (w, [Next (Some (AppError "Please provide a key and passphrase" None))])
   ∧ (truthy (credentials req).1 = None ∨ truthy (credentials req).2 = None))
  ∨ (∃ keyID passphrase,
       truthy (credentials req).1 = Some keyID
       ∧ truthy (credentials req).2 = Some passphrase
       ∧ ((Key w !! keyID = None
           ∧ checkPassphrase correctPassphrase w req
             = (w, [Next (Some (TypeError
                  "Cannot read properties of null (reading 'correctPassphrase')"))]))
          ∨ (∃ key, Key w !! keyID = Some key
               ∧ correctPassphrase passphrase (KeyModel.passphrase key) = false
               ∧ checkPassphrase correctPassphrase w req
                 = (w, [Next (Some (AppError "Incorrect key passphrase" None))]))
          ∨ (∃ key, Key w !! keyID = Some key
               ∧ correctPassphrase passphrase (KeyModel.passphrase key) = true
               ∧ checkPassphrase correctPassphrase w req
                 = (mkWorld (<[keyID := KeyModel.inc_times key]> (Key w))
                      (gridfsBucket w), [Next None])))).
Proof.
  unfold checkPassphrase, catchAsync, checkPassphrase_body.
  destruct (credentials req) as [k p]. cbn [fst snd].
  destruct (truthy k) as [keyID|]; [|left; auto].
  destruct (truthy p) as [passphrase|]; [|left; auto].
  right. exists keyID, passphrase. split; [done |]. split; [done |].
  destruct (Key w !! keyID) as [key|] eqn:Hkey; [|left; auto].
  right. destruct (correctPassphrase passphrase (KeyModel.passphrase key)) eqn:Hok.
  - right. exists key. split; [done |]. split; [done |]. simpl.
    unfold KeyModel.findOneAndUpdate_inc. by rewrite Hkey.
  - left. eauto.
Qed.

(** X1.  checkPassphrase answers "Please provide a key and passphrase"
    exactly when the request is a POST lacking the key or the passphrase in
    its body, a GET lacking one of them in its headers, or uses any other
    method; a field is lacking when it is undefined or the empty string.
    The error carries no status code, because the 400 is handed to next and
    not to AppError. *)
Theorem checkPassphrase_missing_credentials_iff
    (correctPassphrase : string → string → bool) (w : World) (req : Req.t) :
  (checkPassphrase correctPassphrase w req
   = (w, [Next (Some (AppError "Please provide a key and passphrase" None))])
   ↔ (Req.method req = "POST"
      ∧ (absent (Req.body_key req) ∨ absent (Req.body_passphrase req)))
     ∨ (Req.method req = "GET"
        ∧ (absent (Req.headers_key req) ∨ absent (Req.headers_passphrase req)))
     ∨ (Req.method req ≠ "POST" ∧ Req.method req ≠ "GET"))
  ∧ error_kind (AppError "Please provide a key and passphrase" None)
    = GenericFailureK.
Proof.
  split; [|done].
  assert ((truthy (credentials req).1 = None ∨ truthy (credentials req).2 = None)
          ↔ (Req.method req = "POST"
             ∧ (absent (Req.body_key req) ∨ absent (Req.body_passphrase req)))
            ∨ (Req.method req = "GET"
               ∧ (absent (Req.headers_key req) ∨ absent (Req.headers_passphrase req)))
            ∨ (Req.method req ≠ "POST" ∧ Req.method req ≠ "GET")) as Hcred.
  { rewrite !truthy_None_iff. unfold credentials.
    destruct (decide (Req.method req = "POST")) as [Hpost|Hpost].
    - cbn [fst snd]. split; [intros H; left; by split |].
      intros [[_ ?] | [[Hget _] | [? _]]]; [done | | done].
      rewrite Hpost in Hget. discriminate.
    - destruct (decide (Req.method req = "GET")) as [Hget|Hget]; cbn [fst snd].
      + split; [intros H; right; left; by split |].
        intros [[? _] | [[_ ?] | [_ ?]]]; done.
      + split; [intros _; right; right; by split |]. intros _. left. by left. }
  rewrite <- Hcred.
  destruct (checkPassphrase_cases correctPassphrase w req)
    as [[-> Hmiss] | (keyID & passphrase & Hk & Hp & Hrest)]; [done |].
  split.
  - intros Heq.
    destruct Hrest as [[_ Hr] | [(key & _ & _ & Hr) | (key & _ & _ & Hr)]];
      rewrite Hr in Heq; discriminate.
  - rewrite Hk, Hp. intros [? | ?]; discriminate.
Qed.

(** X2.  Whatever the request, checkPassphrase leaves the bucket alone and
    keeps the set of key records: no record appears (the upsert never
    inserts, a missing key faults first) and none disappears; a record keeps
    its name, owner and passphrase hash, and its usage counter stays or
    grows by one. *)
Theorem checkPassphrase_preserves_keys
    (correctPassphrase : string → string → bool) (w : World) (req : Req.t)
    (k : string) :
  gridfsBucket (checkPassphrase correctPassphrase w req).1 = gridfsBucket w
  ∧ option_Forall2
      (λ key key',
         KeyModel.name key' = KeyModel.name key
         ∧ KeyModel.user key' = KeyModel.user key
         ∧ KeyModel.passphrase key' = KeyModel.passphrase key
         ∧ KeyModel.times key ≤ KeyModel.times key' ≤ S (KeyModel.times key))
      (Key w !! k) (Key (checkPassphrase correctPassphrase w req).1 !! k).
Proof.
  assert (∀ o : option KeyModel.t,
            option_Forall2
              (λ key key',
                 KeyModel.name key' = KeyModel.name key
                 ∧ KeyModel.user key' = KeyModel.user key
                 ∧ KeyModel.passphrase key' = KeyModel.passphrase key
                 ∧ KeyModel.times key ≤ KeyModel.times key' ≤ S (KeyModel.times key))
              o o) as Hrefl.
  { intros [key|]; constructor. repeat split; lia. }
  destruct (checkPassphrase_cases correctPassphrase w req)
    as [[-> _] | (keyID & passphrase & _ & _ & Hrest)]; [by split |].
  destruct Hrest as [[_ ->] | [(key & _ & _ & ->) | (key & Hkey & _ & ->)]];
    [by split | by split |].
  split; [done |]. cbn [fst Key].
  destruct (decide (keyID = k)) as [<-|Hne].
  - rewrite lookup_insert_eq, Hkey. constructor. simpl. repeat split; lia.
  - by rewrite lookup_insert_ne.
Qed.

(** ** checkType: which batches pass, and what the first offending file
       decides *)

Lemma fileListOf_not_null req fileList :
  fileListOf req = inl fileList → is_null (Req.files req) = false.
Proof. unfold fileListOf. by destruct (Req.files req). Qed.

Lemma checkType_of_loop whiteList fromBuffer w req fileList :
  fileListOf req = inl fileList →
  checkType whiteList fromBuffer w req
  = (w, (checkType_loop whiteList fromBuffer req fileList).1
        ++ match (checkType_loop whiteList fromBuffer req fileList).2 with
           | Some e => [Next (Some e)]
           | None => []
           end).
Proof.
  intros Hlist. unfold checkType, catchAsync, checkType_body. rewrite Hlist.
  by destruct (checkType_loop _ _ _ _).
Qed.

Lemma checkType_loop_skips_allowed whiteList fromBuffer req good fileList :
  is_null (Req.files req) = false →
  Forall (allowed whiteList fromBuffer) good →
  checkType_loop whiteList fromBuffer req ((Some <$> good) ++ fileList)
  = checkType_loop whiteList fromBuffer req fileList.
Proof.
  intros Hnull. induction 1 as [|file good (mime & Hsniff & Hin) _ IH]; [done |].
  cbn [fmap list_fmap app checkType_loop].
  by rewrite Hnull, Hsniff, bool_decide_eq_true_2.
Qed.

Lemma checkType_loop_accepts_iff whiteList fromBuffer req (fs : list File.t) :
  is_null (Req.files req) = false →
  checkType_loop whiteList fromBuffer req (Some <$> fs) = ([Next None], None)
  ↔ Forall (allowed whiteList fromBuffer) fs.
Proof.
  intros Hnull. induction fs as [|file fs IH].
  - split; [constructor | done].
  - cbn [fmap list_fmap checkType_loop]. rewrite Hnull.
    destruct (fromBuffer (File.data file)) as [mime|] eqn:Hsniff.
    + case_bool_decide as Hin.
      * rewrite IH. split.
        -- intros Hfs. constructor; [by exists mime | done].
        -- by intros [_ Hfs]%Forall_cons.
      * split; [discriminate |].
        intros [(mime' & Hsniff' & Hin') _]%Forall_cons. congruence.
    + split; [discriminate |].
      intros [(mime' & Hsniff' & _) _]%Forall_cons. congruence.
Qed.

(** X3.  checkType lets a batch through to the next handler exactly when
    every file of it has a detected type that is on the allow-list; an empty
    array passes. *)
Theorem checkType_accepts_iff (whiteList : list string)
    (fromBuffer : bytes → option string) (w : World) (req : Req.t)
    (fs : list File.t) :
  fileListOf req = inl (Some <$> fs) →
  checkType whiteList fromBuffer w req = (w, [Next None])
  ↔ Forall (allowed whiteList fromBuffer) fs.
Proof.
  intros Hlist.
  pose proof (fileListOf_not_null _ _ Hlist) as Hnull.
  rewrite <- (checkType_loop_accepts_iff whiteList fromBuffer req fs Hnull).
  rewrite (checkType_of_loop _ _ _ _ _ Hlist).
  destruct (checkType_loop_cases whiteList fromBuffer req (Some <$> fs) Hnull)
    as [[msg ->] | [-> | ->]]; simpl; split; (done || discriminate).
Qed.

Lemma checkType_accepts_iff_witness :
  checkType Demo.whiteList sniff Demo.world0
    (Demo.post Demo.alice "k1" "correct-horse" (Some (OneFile Demo.report)))
  = (Demo.world0, [Next None])
  ↔ Forall (allowed Demo.whiteList sniff) [Demo.report].
Proof.
  apply (checkType_accepts_iff Demo.whiteList sniff Demo.world0
           (Demo.post Demo.alice "k1" "correct-horse" (Some (OneFile Demo.report)))
           [Demo.report]).
  reflexivity.
Defined.

(** X4.  The first file of a batch that is not an allowed one decides the
    answer, and the files after it are not looked at: the caller gets the
    415 rejection if its type is detected, and a TypeError, a generic
    failure, if its type is not detected. *)
Theorem checkType_first_offender (whiteList : list string)
    (fromBuffer : bytes → option string) (w : World) (req : Req.t)
    (good : list File.t) (bad : File.t) (rest : list File.t) :
  fileListOf req = inl (Some <$> (good ++ bad :: rest)) →
  Forall (allowed whiteList fromBuffer) good →
  (fromBuffer (File.data bad) = None →
   checkType whiteList fromBuffer w req
   = (w, [Next (Some (TypeError "Cannot read properties of undefined (reading 'mime')"))]))
  ∧ (∀ mime, fromBuffer (File.data bad) = Some mime → mime ∉ whiteList →
     checkType whiteList fromBuffer w req
     = (w, [Next (Some (AppError "File type not allowed" (Some 415)))])).
Proof.
  intros Hlist Hgood.
  pose proof (fileListOf_not_null _ _ Hlist) as Hnull.
  rewrite (checkType_of_loop _ _ _ _ _ Hlist).
  rewrite fmap_app, checkType_loop_skips_allowed by done.
  cbn [fmap list_fmap checkType_loop]. rewrite Hnull.
  split.
  - by intros ->.
  - intros mime -> Hout. by rewrite bool_decide_eq_false_2.
Qed.

Lemma checkType_first_offender_witness :
  let req := Demo.post Demo.alice "k1" "correct-horse"
               (Some (FileArray [Demo.report; Demo.setup; Demo.notes])) in
  (sniff (File.data Demo.setup) = None →
   checkType Demo.whiteList sniff Demo.world0 req
   = (Demo.world0,
      [Next (Some (TypeError "Cannot read properties of undefined (reading 'mime')"))]))
  ∧ (∀ mime, sniff (File.data Demo.setup) = Some mime → mime ∉ Demo.whiteList →
     checkType Demo.whiteList sniff Demo.world0 req
     = (Demo.world0, [Next (Some (AppError "File type not allowed" (Some 415)))])).
Proof.
  apply (checkType_first_offender Demo.whiteList sniff Demo.world0
           (Demo.post Demo.alice "k1" "correct-horse"
              (Some (FileArray [Demo.report; Demo.setup; Demo.notes])))
           [Demo.report] Demo.setup [Demo.notes]).
  - reflexivity.
  - constructor; [|constructor]. exists "application/pdf". split; [reflexivity |].
    apply list_elem_of_here.
Defined.

(** ** The bucket invariant over sequences of requests *)

Lemma bucket_inv_empty : bucket_inv GridFS.empty.
Proof. split; [apply wf_empty | constructor]. Qed.

Lemma unique_ids_openUploadStream b name cs ctype meta content :
  GridFS.wf b → unique_ids b →
  unique_ids (GridFS.openUploadStream b name cs ctype meta content).
Proof.
  intros [Hf _] Huniq. unfold unique_ids in *. simpl.
  rewrite fmap_app. apply NoDup_app. split; [done |]. split.
  - intros fid (d & -> & Hd)%list_elem_of_fmap Hin.
    apply list_elem_of_singleton in Hin. specialize (Hf d Hd). simpl in Hin. lia.
  - apply NoDup_singleton.
Qed.

Lemma unique_ids_delete b fid : unique_ids b → unique_ids (GridFS.delete b fid).
Proof.
  unfold unique_ids. simpl. intros Huniq.
  eapply sublist_NoDup; [exact Huniq | apply fmap_sublist, sublist_filter].
Qed.

Lemma bucket_inv_openUploadStream b name cs ctype meta content :
  bucket_inv b → bucket_inv (GridFS.openUploadStream b name cs ctype meta content).
Proof.
  intros [Hwf Huniq]. split;
    [by apply wf_openUploadStream | by apply unique_ids_openUploadStream].
Qed.

Lemma bucket_inv_delete b fid : bucket_inv b → bucket_inv (GridFS.delete b fid).
Proof.
  intros [Hwf Huniq]. split; [by apply wf_delete | by apply unique_ids_delete].
Qed.

(** What a run of the upload loop can have changed, however it ended: files
    documents of the caller were appended, and nothing stored before was
    touched. *)
Lemma uploadFiles_loop_frame encryptStream now fileSizeMB (id : string)
    (passphrase : option string) (fileList : list (option File.t)) :
  ∀ b b' exn,
    uploadFiles_loop encryptStream now fileSizeMB id passphrase b fileList = (b', exn) →
    ∃ docs,
      GridFS.files b' = GridFS.files b ++ docs
      ∧ Forall (λ d, owner d = id) docs
      ∧ (bucket_inv b → bucket_inv b')
      ∧ (GridFS.wf b → ∀ fid, fid < GridFS.next_id b →
           GridFS.openDownloadStream b' fid = GridFS.openDownloadStream b fid).
Proof.
  induction fileList as [|[file|] rest IH]; intros b b' exn Hloop;
    cbn [uploadFiles_loop] in Hloop.
  - injection Hloop as <- <-. exists []. by rewrite app_nil_r.
  - destruct (encryptStream _ _ _) as [storageData | e].
    + set (b1 := GridFS.openUploadStream b _ _ _ _ _) in Hloop.
      destruct (IH b1 b' exn Hloop) as (docs & Hfiles & Hown & Hinv & Hold).
      eexists (_ :: docs). split; [rewrite Hfiles; simpl; by rewrite <- app_assoc |].
      split; [by constructor |]. split.
      * intros Hb. by apply Hinv, bucket_inv_openUploadStream.
      * intros Hwf fid Hfid. rewrite Hold.
        -- apply openDownloadStream_old. lia.
        -- by apply wf_openUploadStream.
        -- simpl. lia.
    + injection Hloop as <- <-. exists []. by rewrite app_nil_r.
  - injection Hloop as <- <-. exists []. by rewrite app_nil_r.
Qed.

Lemma uploadFiles_frame encryptStream now fileSizeMB (w : World) (req : Req.t) :
  Key (uploadFiles encryptStream now fileSizeMB w req).1 = Key w
  ∧ ∃ docs,
      GridFS.files (gridfsBucket (uploadFiles encryptStream now fileSizeMB w req).1)
      = GridFS.files (gridfsBucket w) ++ docs
      ∧ Forall (λ d, owner d = caller req) docs
      ∧ (bucket_inv (gridfsBucket w) →
         bucket_inv (gridfsBucket (uploadFiles encryptStream now fileSizeMB w req).1))
      ∧ (GridFS.wf (gridfsBucket w) → ∀ fid, fid < GridFS.next_id (gridfsBucket w) →
           GridFS.openDownloadStream
             (gridfsBucket (uploadFiles encryptStream now fileSizeMB w req).1) fid
           = GridFS.openDownloadStream (gridfsBucket w) fid).
Proof.
  unfold uploadFiles, catchAsync, uploadFiles_body.
  destruct (fileListOf req) as [fileList | e].
  - destruct (uploadFiles_loop _ _ _ _ _ _ _) as [b' exn] eqn:Hloop.
    destruct (uploadFiles_loop_frame _ _ _ _ _ _ _ _ _ Hloop)
      as (docs & Hfiles & Hown & Hinv & Hold).
    destruct exn; (split; [done |]); by exists docs.
  - split; [done |]. exists []. simpl. by rewrite app_nil_r.
Qed.

(** The object that delete and download act on belongs to the caller. *)
Lemma find_by_name_elem b id name d :
  d ∈ GridFS.find b (GridFS.ByOwnerAndFilename id name) ↔
  d ∈ GridFS.files b ∧ owner d = id ∧ GridFS.filename d = name.
Proof.
  unfold GridFS.find. rewrite list_elem_of_filter. simpl.
  rewrite andb_True, !bool_decide_spec. unfold owner. tauto.
Qed.

Lemma find_by_owner_elem b id d :
  d ∈ GridFS.find b (GridFS.ByOwner id) ↔ d ∈ GridFS.files b ∧ owner d = id.
Proof.
  unfold GridFS.find. rewrite list_elem_of_filter. simpl.
  rewrite bool_decide_spec. unfold owner. tauto.
Qed.

Lemma delete_world w req :
  delete w req
  = match GridFS.find (gridfsBucket w)
            (GridFS.ByOwnerAndFilename (caller req) (Req.params_name req)) with
    | [] => (w, [Next (Some (AppError "Not found!" (Some 404)))])
    | file0 :: _ =>
        (mkWorld (Key w) (GridFS.delete (gridfsBucket w) (GridFS._id file0)),
         [ResJson 200 (JsonStatus "success")])
    end.
Proof.
  unfold delete, catchAsync, delete_body, delete_cb, caller.
  destruct (GridFS.find _ _) as [|file0 rest] eqn:Hfind.
  - by destruct w.
  - assert (file0 ∈ GridFS.find (gridfsBucket w)
              (GridFS.ByOwnerAndFilename (Jwt.id (jwtDecoder (Req.cookies_jwt req)))
                 (Req.params_name req))) as Hmem
      by (rewrite Hfind; apply list_elem_of_here).
    apply find_by_name_elem in Hmem as (_ & Hown & _). unfold owner in Hown.
    by rewrite decide_False by (intros Hne; by apply Hne).
Qed.

Lemma serve_keeps_bucket_inv whiteList fromBuffer correctPassphrase encryptStream
    decryptStream now fileSizeMB (e : Endpoint) (w : World) (req : Req.t) :
  bucket_inv (gridfsBucket w) →
  bucket_inv (gridfsBucket
    (serve whiteList fromBuffer correctPassphrase encryptStream decryptStream
       now fileSizeMB e w req).1).
Proof.
  intros Hinv. destruct e; cbn [serve].
  - rewrite (surjective_pairing (checkType _ _ _ _)).
    unfold checkType, catchAsync, checkType_body.
    destruct (fileListOf req); [by destruct (checkType_loop _ _ _ _) | done].
  - by rewrite checkPassphrase_keeps_bucket.
  - destruct (uploadFiles_frame encryptStream now fileSizeMB w req)
      as (_ & docs & _ & _ & Hkeep & _). by apply Hkeep.
  - done.
  - done.
  - rewrite delete_world. destruct (GridFS.find _ _); [done |].
    by apply bucket_inv_delete.
Qed.

(** X5.  Whatever requests are served, in whatever order and with whatever
    outcome, starting from an empty bucket: no two files documents share an
    id, and every id in use, of a document or of a chunk, lies below the
    next id to be handed out. *)
Theorem served_bucket_has_unique_ids whiteList fromBuffer correctPassphrase
    encryptStream decryptStream now fileSizeMB
    (calls : list (Endpoint * Req.t)) (keys : gmap string KeyModel.t) :
  bucket_inv
    (gridfsBucket
       (serve_all whiteList fromBuffer correctPassphrase encryptStream decryptStream
          now fileSizeMB calls (mkWorld keys GridFS.empty))).
Proof.
  assert (∀ w, bucket_inv (gridfsBucket w) →
               bucket_inv (gridfsBucket
                 (serve_all whiteList fromBuffer correctPassphrase encryptStream
                    decryptStream now fileSizeMB calls w))) as Hall.
  { induction calls as [|[e req] rest IH]; intros w Hinv; [done |].
    cbn [serve_all]. by apply IH, serve_keeps_bucket_inv. }
  apply Hall, bucket_inv_empty.
Qed.

(** The sample worlds are reached by uploads from the empty bucket. *)
Lemma world2_bucket_inv : bucket_inv (gridfsBucket Demo.world2).
Proof.
  apply (serve_keeps_bucket_inv Demo.whiteList sniff Demo.correctPassphrase
           Toy.encryptStream Toy.decryptStream "Tue Nov 03 2026" (λ _, "0.000")
           UploadFiles Demo.world1
           (Demo.post Demo.alice "k1" "correct-horse" (Some (OneFile Demo.report)))).
  apply (serve_keeps_bucket_inv Demo.whiteList sniff Demo.correctPassphrase
           Toy.encryptStream Toy.decryptStream "Tue Nov 03 2026" (λ _, "0.000")
           UploadFiles Demo.world0
           (Demo.post Demo.alice "k1" "correct-horse" (Some (OneFile Demo.report)))).
  apply bucket_inv_empty.
Qed.

Lemma scenario_bucket_inv : bucket_inv (gridfsBucket Scenario.world).
Proof.
  apply (serve_keeps_bucket_inv Demo.whiteList sniff Demo.correctPassphrase
           Toy.encryptStream Toy.decryptStream "Tue Nov 03 2026" (λ _, "0.000")
           UploadFiles Demo.world1
           (Demo.post Demo.bob "k2" "tr0ub4dor" (Some (OneFile Demo.notes)))).
  apply (serve_keeps_bucket_inv Demo.whiteList sniff Demo.correctPassphrase
           Toy.encryptStream Toy.decryptStream "Tue Nov 03 2026" (λ _, "0.000")
           UploadFiles Demo.world0
           (Demo.post Demo.alice "k1" "correct-horse" (Some (OneFile Demo.report)))).
  apply bucket_inv_empty.
Qed.

(** ** getAll, download and delete: exact outcomes *)

Lemma find_nil_iff b q :
  GridFS.find b q = [] ↔ Forall (λ d, ¬ GridFS.matches q d) (GridFS.files b).
Proof.
  unfold GridFS.find. split.
  - intros Hnil. apply Forall_forall. intros d Hd Hm.
    assert (d ∈ filter (λ d, GridFS.matches q d) (GridFS.files b)) as Hin
      by (by apply list_elem_of_filter).
    rewrite Hnil in Hin. by apply elem_of_nil in Hin.
  - apply filter_none.
Qed.

Lemma matches_by_name id name d :
  GridFS.matches (GridFS.ByOwnerAndFilename id name) d
  ↔ owner d = id ∧ GridFS.filename d = name.
Proof. simpl. by rewrite andb_True, !bool_decide_spec. Qed.

Lemma matches_by_owner id d :
  GridFS.matches (GridFS.ByOwner id) d ↔ owner d = id.
Proof. simpl. by rewrite bool_decide_spec. Qed.

Lemma getAll_world w req :
  getAll w req
  = (w, match GridFS.find (gridfsBucket w) (GridFS.ByOwner (caller req)) with
        | [] => [ResJson 404 (JsonStatus "failed")]
        | _ :: _ =>
            [ResJson 200
               (JsonFiles "success"
                  (GridFS.find (gridfsBucket w) (GridFS.ByOwner (caller req))))]
        end).
Proof.
  unfold getAll, catchAsync, getAll_body, getAll_cb, caller. simpl.
  destruct (GridFS.find _ _); by rewrite app_nil_r.
Qed.

Lemma download_world decryptStream w req :
  download decryptStream w req
  = (w, match GridFS.find (gridfsBucket w)
                (GridFS.ByOwnerAndFilename (caller req) (Req.params_name req)) with
        | [] => [Next (Some (AppError "Not found!" (Some 404)))]
        | file0 :: _ =>
            [ResSet [("Accept-Ranges", "bytes");
                     ("Content-Disposition",
                      "attachment; filename=" +:+ Req.params_name req);
                     ("Content-Type", GridFS.contentType file0)];
             match decryptStream
                     (concat (GridFS.openDownloadStream (gridfsBucket w)
                                (GridFS._id file0)))
                     (Req.headers_passphrase req) with
             | inl decrypt => ResPipe decrypt
             | inr e => UnhandledRejection e
             end]
        end).
Proof.
  unfold download, catchAsync, download_body, download_cb, caller.
  cbn [world events thrown]. rewrite app_nil_r.
  destruct (GridFS.find _ _) as [|file0 rest] eqn:Hfind; [done |].
  assert (file0 ∈ GridFS.find (gridfsBucket w)
            (GridFS.ByOwnerAndFilename (Jwt.id (jwtDecoder (Req.cookies_jwt req)))
               (Req.params_name req))) as Hmem
    by (rewrite Hfind; apply list_elem_of_here).
  apply find_by_name_elem in Hmem as (_ & Hown & _). unfold owner in Hown.
  rewrite decide_False by (intros Hne; by apply Hne).
  cbn [app]. by destruct (decryptStream _ _).
Qed.

(** X6.  getAll answers 404 exactly when the caller owns no stored object;
    otherwise it answers 200 with a non-empty listing that holds every
    object of the caller and nothing else. *)
Theorem getAll_404_iff_owns_nothing (w : World) (req : Req.t) :
  (getAll w req = (w, [ResJson 404 (JsonStatus "failed")])
   ↔ Forall (λ d, owner d ≠ caller req) (GridFS.files (gridfsBucket w)))
  ∧ (getAll w req = (w, [ResJson 404 (JsonStatus "failed")])
     ∨ ∃ listing,
         getAll w req = (w, [ResJson 200 (JsonFiles "success" listing)])
         ∧ listing ≠ []
         ∧ ∀ d, d ∈ listing ↔ d ∈ GridFS.files (gridfsBucket w) ∧ owner d = caller req).
Proof.
  rewrite getAll_world.
  destruct (GridFS.find (gridfsBucket w) (GridFS.ByOwner (caller req)))
    as [|d0 rest] eqn:Hfind.
  - split; [|by left]. split; [|done]. intros _.
    apply find_nil_iff in Hfind.
    eapply Forall_impl; [exact Hfind |]. intros d Hd Ho. by apply Hd, matches_by_owner.
  - split.
    + split; [discriminate |]. intros Hnone.
      assert (d0 ∈ GridFS.find (gridfsBucket w) (GridFS.ByOwner (caller req))) as Hin
        by (rewrite Hfind; apply list_elem_of_here).
      apply find_by_owner_elem in Hin as [Hin Ho].
      rewrite Forall_forall in Hnone. by destruct (Hnone d0 Hin).
    + right. eexists. split; [done |]. split; [done |].
      intros d. rewrite <- Hfind. apply find_by_owner_elem.
Qed.

(** X7.  download never changes the world and never signals 403: it answers
    404 "Not found!" exactly when no stored object has the caller as owner
    and the requested filename, and otherwise sets the headers and hands the
    stored bytes of the first such object to decryptStream. *)
Theorem download_outcome decryptStream (w : World) (req : Req.t) :
  (download decryptStream w req).1 = w
  ∧ Forall (λ ev, ¬ is_403 ev) (download decryptStream w req).2
  ∧ ((download decryptStream w req).2 = [Next (Some (AppError "Not found!" (Some 404)))]
     ↔ Forall (λ d, ¬ (owner d = caller req ∧ GridFS.filename d = Req.params_name req))
         (GridFS.files (gridfsBucket w)))
  ∧ (∀ file0,
       resolve (gridfsBucket w) (caller req) (Req.params_name req) = Some file0 →
       (download decryptStream w req).2
       = [ResSet [("Accept-Ranges", "bytes");
                  ("Content-Disposition",
                   "attachment; filename=" +:+ Req.params_name req);
                  ("Content-Type", GridFS.contentType file0)];
          match decryptStream
                  (concat (GridFS.openDownloadStream (gridfsBucket w)
                             (GridFS._id file0)))
                  (Req.headers_passphrase req) with
          | inl decrypt => ResPipe decrypt
          | inr e => UnhandledRejection e
          end]).
Proof.
  rewrite download_world. cbn [fst snd]. unfold resolve.
  assert (GridFS.find (gridfsBucket w)
            (GridFS.ByOwnerAndFilename (caller req) (Req.params_name req)) = []
          ↔ Forall (λ d, ¬ (owner d = caller req
                            ∧ GridFS.filename d = Req.params_name req))
              (GridFS.files (gridfsBucket w))) as Hnil.
  { rewrite find_nil_iff. apply Forall_proper; [|done].
    intros d. by rewrite matches_by_name. }
  rewrite <- Hnil.
  destruct (GridFS.find _ _) as [|file0 rest]; cbn [head].
  - split; [done |]. split.
    + constructor; [|constructor]. intros [msg Hmsg]. discriminate.
    + split; [done |]. intros file0 Hnone. discriminate.
  - split; [done |]. split.
    + constructor; [intros [msg Hmsg]; discriminate |].
      constructor; [|constructor]. intros [msg Hmsg].
      destruct (decryptStream _ _); discriminate.
    + split; [split; discriminate |]. by intros ? [= <-].
Qed.

(** X8.  delete never signals 403 and never touches the keys: it answers 404
    "Not found!", leaving the world as it is, exactly when no stored object
    has the caller as owner and the requested filename; otherwise it answers
    200 and removes the first such object from the bucket. *)
Theorem delete_outcome (w : World) (req : Req.t) :
  Key (delete w req).1 = Key w
  ∧ Forall (λ ev, ¬ is_403 ev) (delete w req).2
  ∧ (delete w req = (w, [Next (Some (AppError "Not found!" (Some 404)))])
     ↔ Forall (λ d, ¬ (owner d = caller req ∧ GridFS.filename d = Req.params_name req))
         (GridFS.files (gridfsBucket w)))
  ∧ (∀ file0,
       resolve (gridfsBucket w) (caller req) (Req.params_name req) = Some file0 →
       delete w req
       = (mkWorld (Key w) (GridFS.delete (gridfsBucket w) (GridFS._id file0)),
          [ResJson 200 (JsonStatus "success")])).
Proof.
  rewrite delete_world. unfold resolve.
  assert (GridFS.find (gridfsBucket w)
            (GridFS.ByOwnerAndFilename (caller req) (Req.params_name req)) = []
          ↔ Forall (λ d, ¬ (owner d = caller req
                            ∧ GridFS.filename d = Req.params_name req))
              (GridFS.files (gridfsBucket w))) as Hnil.
  { rewrite find_nil_iff. apply Forall_proper; [|done].
    intros d. by rewrite matches_by_name. }
  rewrite <- Hnil.
  destruct (GridFS.find _ _) as [|file0 rest]; cbn [head fst snd].
  - split; [done |]. split.
    + constructor; [|constructor]. intros [msg Hmsg]. discriminate.
    + split; [done |]. intros file0 Hnone. discriminate.
  - split; [done |]. split.
    + constructor; [|constructor]. intros [msg Hmsg]. discriminate.
    + split; [split; discriminate |]. by intros ? [= <-].
Qed.

(** ** delete removes one object and no more *)

Lemma ids_inj (b : GridFS.Bucket) (x y : GridFS.FileDoc) :
  unique_ids b → x ∈ GridFS.files b → y ∈ GridFS.files b →
  GridFS._id x = GridFS._id y → x = y.
Proof.
  unfold unique_ids. induction (GridFS.files b) as [|a l IH]; intros Huniq Hx Hy Heq.
  - by apply elem_of_nil in Hx.
  - cbn [fmap list_fmap] in Huniq. apply NoDup_cons in Huniq as [Hfresh Huniq].
    apply elem_of_cons in Hx as [-> | Hx]; apply elem_of_cons in Hy as [-> | Hy].
    + done.
    + destruct Hfresh. rewrite Heq. by apply list_elem_of_fmap_2.
    + destruct Hfresh. rewrite <- Heq. by apply list_elem_of_fmap_2.
    + by apply IH.
Qed.

Lemma length_filter_other_ids (l : list GridFS.FileDoc) (x : GridFS.FileDoc) :
  NoDup (GridFS._id <$> l) → x ∈ l →
  length (filter (λ d, GridFS._id d ≠ GridFS._id x) l) + 1 = length l.
Proof.
  induction l as [|a l IH]; intros Huniq Hx.
  - by apply elem_of_nil in Hx.
  - cbn [fmap list_fmap] in Huniq. apply NoDup_cons in Huniq as [Hfresh Huniq].
    apply elem_of_cons in Hx as [-> | Hx].
    + rewrite filter_cons_False by (intros Hne; by apply Hne).
      rewrite filter_all; [simpl; lia |].
      apply Forall_forall. intros d Hd Heq. destruct Hfresh.
      rewrite <- Heq. by apply list_elem_of_fmap_2.
    + rewrite filter_cons_True.
      * simpl. specialize (IH Huniq Hx). lia.
      * intros Heq. destruct Hfresh. rewrite Heq. by apply list_elem_of_fmap_2.
Qed.

Lemma openDownloadStream_delete_other b fid fid' :
  fid' ≠ fid →
  GridFS.openDownloadStream (GridFS.delete b fid) fid'
  = GridFS.openDownloadStream b fid'.
Proof.
  intros Hne. unfold GridFS.openDownloadStream. simpl. f_equal.
  rewrite list_filter_filter. apply list_filter_iff. intros c. split; [tauto |].
  intros Hc. split; [done | congruence].
Qed.

Lemma resolve_Some b id name file0 :
  resolve b id name = Some file0 →
  ∃ rest, GridFS.find b (GridFS.ByOwnerAndFilename id name) = file0 :: rest.
Proof.
  unfold resolve. destruct (GridFS.find _ _) as [|d rest]; [done |].
  intros [= <-]. eauto.
Qed.

Lemma resolve_elem b id name file0 :
  resolve b id name = Some file0 →
  file0 ∈ GridFS.files b ∧ owner file0 = id ∧ GridFS.filename file0 = name.
Proof.
  intros (rest & Hfind)%resolve_Some. apply find_by_name_elem.
  rewrite Hfind. apply list_elem_of_here.
Qed.

(** X9.  In a bucket with unique ids, a delete that finds its object removes
    that one files document and no other, leaves no chunk of it behind, and
    leaves the stored bytes of every remaining object as they were. *)
Theorem delete_removes_exactly_one (w : World) (req : Req.t) (file0 : GridFS.FileDoc) :
  bucket_inv (gridfsBucket w) →
  resolve (gridfsBucket w) (caller req) (Req.params_name req) = Some file0 →
  let b' := gridfsBucket (delete w req).1 in
  (∀ d, d ∈ GridFS.files b' ↔ d ∈ GridFS.files (gridfsBucket w) ∧ d ≠ file0)
  ∧ length (GridFS.files b') + 1 = length (GridFS.files (gridfsBucket w))
  ∧ GridFS.openDownloadStream b' (GridFS._id file0) = []
  ∧ (∀ d, d ∈ GridFS.files b' →
          GridFS.openDownloadStream b' (GridFS._id d)
          = GridFS.openDownloadStream (gridfsBucket w) (GridFS._id d)).
Proof.
  intros [Hwf Huniq] Hres b'. subst b'.
  destruct (resolve_elem _ _ _ _ Hres) as (Hin0 & _ & _).
  destruct (resolve_Some _ _ _ _ Hres) as (rest & Hfind).
  rewrite delete_world, Hfind. cbn [fst gridfsBucket].
  assert (∀ d, d ∈ GridFS.files (gridfsBucket w) →
               GridFS._id d ≠ GridFS._id file0 ↔ d ≠ file0) as Hid.
  { intros d Hd. split; [congruence |].
    intros Hne Heq. apply Hne. by apply (ids_inj (gridfsBucket w)). }
  split.
  { intros d. simpl. rewrite list_elem_of_filter. split.
    - intros [Hne Hd]. split; [done |]. by apply Hid.
    - intros [Hd Hne]. split; [by apply Hid | done]. }
  split; [simpl; by apply length_filter_other_ids |].
  split; [apply delete_removes |].
  intros d [Hne _]%list_elem_of_filter.
  by apply openDownloadStream_delete_other.
Qed.

Lemma delete_removes_exactly_one_witness :
  let req := Demo.get Demo.alice "k1" "correct-horse" "report.pdf" in
  let b' := gridfsBucket (delete Scenario.world req).1 in
  (∀ d, d ∈ GridFS.files b'
        ↔ d ∈ GridFS.files (gridfsBucket Scenario.world) ∧ d ≠ Demo.reportDoc)
  ∧ length (GridFS.files b') + 1 = length (GridFS.files (gridfsBucket Scenario.world))
  ∧ GridFS.openDownloadStream b' (GridFS._id Demo.reportDoc) = []
  ∧ (∀ d, d ∈ GridFS.files b' →
          GridFS.openDownloadStream b' (GridFS._id d)
          = GridFS.openDownloadStream (gridfsBucket Scenario.world) (GridFS._id d)).
Proof.
  apply (delete_removes_exactly_one Scenario.world
           (Demo.get Demo.alice "k1" "correct-horse" "report.pdf") Demo.reportDoc);
    [| reflexivity].
  apply scenario_bucket_inv.
Defined.

(** ** What one caller's upload or delete changes for another request *)

Lemma find_after_append b b' docs q :
  GridFS.files b' = GridFS.files b ++ docs →
  GridFS.find b' q = GridFS.find b q ++ filter (λ d, GridFS.matches q d) docs.
Proof. intros Hfiles. unfold GridFS.find. by rewrite Hfiles, filter_app. Qed.

Lemma filter_foreign_docs (docs : list GridFS.FileDoc) (id id' : string) q :
  Forall (λ d, owner d = id) docs → id ≠ id' →
  (q = GridFS.ByOwner id' ∨ ∃ name, q = GridFS.ByOwnerAndFilename id' name) →
  filter (λ d, GridFS.matches q d) docs = [].
Proof.
  intros Hown Hne Hq. apply filter_none.
  eapply Forall_impl; [exact Hown |]. intros d Hd Hm.
  destruct Hq as [-> | [name ->]].
  - apply matches_by_owner in Hm. congruence.
  - apply matches_by_name in Hm as [Hm _]. congruence.
Qed.

(** A download gives the same answer in two worlds when the query finds the
    same object first and that object has the same stored bytes. *)
Lemma download_stable decryptStream (w w' : World) (req : Req.t) :
  resolve (gridfsBucket w') (caller req) (Req.params_name req)
  = resolve (gridfsBucket w) (caller req) (Req.params_name req) →
  (∀ file0, resolve (gridfsBucket w) (caller req) (Req.params_name req) = Some file0 →
            GridFS.openDownloadStream (gridfsBucket w') (GridFS._id file0)
            = GridFS.openDownloadStream (gridfsBucket w) (GridFS._id file0)) →
  (download decryptStream w' req).2 = (download decryptStream w req).2.
Proof.
  intros Hres Hbytes. rewrite !download_world. cbn [snd].
  unfold resolve in *.
  destruct (GridFS.find (gridfsBucket w) _) as [|file0 rest];
    destruct (GridFS.find (gridfsBucket w') _) as [|file0' rest'];
    cbn [head] in *; try done.
  injection Hres as ->. by rewrite (Hbytes file0).
Qed.

Lemma resolve_after_append b b' docs id name :
  GridFS.files b' = GridFS.files b ++ docs →
  (resolve b id name ≠ None
   ∨ filter (λ d, GridFS.matches (GridFS.ByOwnerAndFilename id name) d) docs = []) →
  resolve b' id name = resolve b id name.
Proof.
  intros Hfiles Hcase. unfold resolve in *.
  rewrite (find_after_append b b' docs _ Hfiles).
  destruct Hcase as [Hsome | ->]; [|by rewrite app_nil_r].
  by destruct (GridFS.find b _).
Qed.

(** X10.  An upload, whatever its outcome, does not change what a caller
    other than the uploader gets from getAll and from download. *)
Theorem upload_leaves_other_callers_alone encryptStream decryptStream now fileSizeMB
    (w : World) (up other : Req.t) :
  GridFS.wf (gridfsBucket w) →
  caller up ≠ caller other →
  (getAll (uploadFiles encryptStream now fileSizeMB w up).1 other).2
  = (getAll w other).2
  ∧ (download decryptStream (uploadFiles encryptStream now fileSizeMB w up).1 other).2
    = (download decryptStream w other).2.
Proof.
  intros Hwf Hne.
  destruct (uploadFiles_frame encryptStream now fileSizeMB w up)
    as (_ & docs & Hfiles & Hown & _ & Hold).
  split.
  - rewrite !getAll_world. cbn [snd].
    rewrite (find_after_append _ _ docs _ Hfiles).
    rewrite (filter_foreign_docs docs (caller up) (caller other)) by auto.
    by rewrite app_nil_r.
  - apply download_stable.
    + apply (resolve_after_append _ _ docs _ _ Hfiles). right.
      apply (filter_foreign_docs docs (caller up) (caller other)); eauto.
    + intros file0 (Hin & _)%resolve_elem. apply Hold; [done |].
      destruct Hwf as [Hf _]. by apply Hf.
Qed.

Lemma upload_leaves_other_callers_alone_witness :
  let up := Demo.post Demo.bob "k2" "tr0ub4dor" (Some (OneFile Demo.report)) in
  let other := Demo.get Demo.alice "k1" "correct-horse" "report.pdf" in
  (getAll (Demo.uploadFiles Demo.world1 up).1 other).2 = (getAll Demo.world1 other).2
  ∧ (Demo.download (Demo.uploadFiles Demo.world1 up).1 other).2
    = (Demo.download Demo.world1 other).2.
Proof.
  apply (upload_leaves_other_callers_alone Toy.encryptStream Toy.decryptStream
           "Tue Nov 03 2026" (λ _, "0.000") Demo.world1
           (Demo.post Demo.bob "k2" "tr0ub4dor" (Some (OneFile Demo.report)))
           (Demo.get Demo.alice "k1" "correct-horse" "report.pdf")).
  - apply (uploadFiles_wf Toy.encryptStream "Tue Nov 03 2026" (λ _, "0.000")
             Demo.world0), wf_empty.
  - discriminate.
Defined.

(** X11.  An upload never replaces what a name already resolves to: when
    the caller of a download already owns an object of the requested name,
    the download gives the same answer after any upload, by anyone and of
    any files, as before it. *)
Theorem upload_does_not_replace_namesake encryptStream decryptStream now fileSizeMB
    (w : World) (up down : Req.t) :
  GridFS.wf (gridfsBucket w) →
  resolve (gridfsBucket w) (caller down) (Req.params_name down) ≠ None →
  (download decryptStream (uploadFiles encryptStream now fileSizeMB w up).1 down).2
  = (download decryptStream w down).2.
Proof.
  intros Hwf Hsome.
  destruct (uploadFiles_frame encryptStream now fileSizeMB w up)
    as (_ & docs & Hfiles & _ & _ & Hold).
  apply download_stable.
  - apply (resolve_after_append _ _ docs _ _ Hfiles). by left.
  - intros file0 (Hin & _)%resolve_elem. apply Hold; [done |].
    destruct Hwf as [Hf _]. by apply Hf.
Qed.

Lemma upload_does_not_replace_namesake_witness :
  let up := Demo.post Demo.alice "k1" "correct-horse" (Some (OneFile Scenario.report2)) in
  let down := Demo.get Demo.alice "k1" "correct-horse" "report.pdf" in
  (Demo.download (Demo.uploadFiles Demo.world1 up).1 down).2
  = (Demo.download Demo.world1 down).2.
Proof.
  apply (upload_does_not_replace_namesake Toy.encryptStream Toy.decryptStream
           "Tue Nov 03 2026" (λ _, "0.000") Demo.world1
           (Demo.post Demo.alice "k1" "correct-horse" (Some (OneFile Scenario.report2)))
           (Demo.get Demo.alice "k1" "correct-horse" "report.pdf")).
  - apply (uploadFiles_wf Toy.encryptStream "Tue Nov 03 2026" (λ _, "0.000")
             Demo.world0), wf_empty.
  - discriminate.
Defined.

(** X12.  In a bucket with unique ids, a delete does not change what a
    caller other than the one who deletes gets from getAll and from
    download. *)
Theorem delete_leaves_other_callers_alone decryptStream
    (w : World) (del other : Req.t) :
  bucket_inv (gridfsBucket w) →
  caller del ≠ caller other →
  (getAll (delete w del).1 other).2 = (getAll w other).2
  ∧ (download decryptStream (delete w del).1 other).2
    = (download decryptStream w other).2.
Proof.
  intros [Hwf Huniq] Hne. rewrite delete_world.
  destruct (GridFS.find (gridfsBucket w) _) as [|file0 rest] eqn:Hfind; [done |].
  assert (file0 ∈ GridFS.files (gridfsBucket w) ∧ owner file0 = caller del)
    as [Hin0 Hown0].
  { assert (file0 ∈ GridFS.find (gridfsBucket w)
              (GridFS.ByOwnerAndFilename (caller del) (Req.params_name del))) as Hmem
      by (rewrite Hfind; apply list_elem_of_here).
    apply find_by_name_elem in Hmem. tauto. }
  assert (∀ q, (q = GridFS.ByOwner (caller other)
                ∨ ∃ name, q = GridFS.ByOwnerAndFilename (caller other) name) →
               GridFS.find (GridFS.delete (gridfsBucket w) (GridFS._id file0)) q
               = GridFS.find (gridfsBucket w) q) as Hsame.
  { intros q Hq. rewrite find_delete. apply filter_all, Forall_forall.
    intros d Hd Heq.
    assert (d ∈ GridFS.files (gridfsBucket w) ∧ owner d = caller other) as [Hin Hown].
    { destruct Hq as [-> | [name ->]].
      - by apply find_by_owner_elem.
      - apply find_by_name_elem in Hd. tauto. }
    apply (ids_inj (gridfsBucket w)) in Heq; [|done..]. subst d. congruence. }
  cbn [fst]. split.
  - rewrite !getAll_world. cbn [snd gridfsBucket]. by rewrite Hsame by auto.
  - apply download_stable; cbn [gridfsBucket].
    + unfold resolve. by rewrite Hsame by eauto.
    + intros d (Hin & Hown & _)%resolve_elem.
      apply openDownloadStream_delete_other. intros Heq.
      apply (ids_inj (gridfsBucket w)) in Heq; [|done..]. subst d. congruence.
Qed.

Lemma delete_leaves_other_callers_alone_witness :
  let del := Demo.get Demo.alice "k1" "correct-horse" "report.pdf" in
  let other := Demo.get Demo.bob "k2" "tr0ub4dor" "notes.txt" in
  (getAll (delete Scenario.world del).1 other).2 = (getAll Scenario.world other).2
  ∧ (Demo.download (delete Scenario.world del).1 other).2
    = (Demo.download Scenario.world other).2.
Proof.
  apply (delete_leaves_other_callers_alone Toy.decryptStream Scenario.world
           (Demo.get Demo.alice "k1" "correct-horse" "report.pdf")
           (Demo.get Demo.bob "k2" "tr0ub4dor" "notes.txt")); [| discriminate].
  apply scenario_bucket_inv.
Defined.

(** ** Storage between encryptStream and decryptStream *)

Lemma uploadFiles_ok_loop encryptStream now fileSizeMB (w : World) (req : Req.t)
    (fileList : list (option File.t)) :
  fileListOf req = inl fileList →
  (uploadFiles encryptStream now fileSizeMB w req).2
  = [ResJson 200 (JsonStatus "success")] →
  uploadFiles_loop encryptStream now fileSizeMB (caller req)
    (Req.body_passphrase req) (gridfsBucket w) fileList
  = (gridfsBucket (uploadFiles encryptStream now fileSizeMB w req).1, None)
  ∧ Key (uploadFiles encryptStream now fileSizeMB w req).1 = Key w.
Proof.
  unfold uploadFiles, catchAsync, uploadFiles_body, caller. intros ->.
  by destruct (uploadFiles_loop _ _ _ _ _ _ _) as [b' [e|]].
Qed.

Lemma filter_imap_only {A B} (P : B → Prop) `{!∀ y, Decision (P y)}
    (g : nat → A → B) (l : list A) (i : nat) (x : A) :
  l !! i = Some x →
  P (g i x) →
  (∀ j y, j ≠ i → l !! j = Some y → ¬ P (g j y)) →
  filter P (imap g l) = [g i x].
Proof.
  revert g i. induction l as [|a l IH]; intros g i Hi HP Hother.
  - by rewrite lookup_nil in Hi.
  - rewrite imap_cons. destruct i as [|i].
    + simpl in Hi. injection Hi as ->. rewrite filter_cons_True by done.
      f_equal. apply filter_none, Forall_forall.
      intros d (k & y & -> & Hk)%elem_of_lookup_imap. by apply (Hother (S k) y).
    + rewrite filter_cons_False by (apply (Hother 0 a); [lia | done]).
      apply (IH (g ∘ S) i); [done | done |].
      intros j y Hj Hy. apply (Hother (S j) y); [lia | done].
Qed.

(** The bucket computed in batch order is one of the ways the uploads can
    have landed. *)
Lemma landed_in_order b b' docs :
  GridFS.files b' = GridFS.files b ++ docs → landed b b' b'.
Proof. intros Hfiles. exists docs, docs. by repeat split. Qed.

(** What a download answers for the file with index [i] of a batch that
    was stored, in whatever order the uploads of the batch completed, when
    no older object of the caller and no other file of the batch carries the
    same name. *)
Lemma download_after_upload_any_order encryptStream decryptStream now fileSizeMB
    (w : World) (up down : Req.t) (fs : list File.t) (i : nat) (file : File.t)
    (storageData : bytes) (b'' : GridFS.Bucket) :
  GridFS.wf (gridfsBucket w) →
  fileListOf up = inl (Some <$> fs) →
  (uploadFiles encryptStream now fileSizeMB w up).2
  = [ResJson 200 (JsonStatus "success")] →
  fs !! i = Some file →
  (∀ j file', j ≠ i → fs !! j = Some file' → File.name file' ≠ File.name file) →
  encryptStream (GridFS.next_id (gridfsBucket w) + i) (File.data file)
    (Req.body_passphrase up) = inl storageData →
  Req.cookies_jwt down = Req.cookies_jwt up →
  Req.params_name down = File.name file →
  resolve (gridfsBucket w) (caller up) (File.name file) = None →
  landed (gridfsBucket w)
    (gridfsBucket (uploadFiles encryptStream now fileSizeMB w up).1) b'' →
  resolve b'' (caller up) (File.name file)
  = Some (uploadedDoc now fileSizeMB (caller up)
            (GridFS.next_id (gridfsBucket w) + i) file)
  ∧ concat (GridFS.openDownloadStream b'' (GridFS.next_id (gridfsBucket w) + i))
    = storageData
  ∧ download decryptStream (mkWorld (Key w) b'') down
    = (mkWorld (Key w) b'',
       [ResSet [("Accept-Ranges", "bytes");
                ("Content-Disposition", "attachment; filename=" +:+ File.name file);
                ("Content-Type", File.mimetype file)];
        match decryptStream storageData (Req.headers_passphrase down) with
        | inl decrypt => ResPipe decrypt
        | inr e => UnhandledRejection e
        end]).
Proof.
  intros Hwf Hlist Hok Hi Hunique Henc Hjwt Hname Hnone Hlanded.
  destruct (uploadFiles_ok_loop _ _ _ _ _ _ Hlist Hok) as [Hloop _].
  destruct (uploadFiles_loop_files _ _ _ _ _ _ _ _ Hloop) as (_ & Hfiles).
  destruct (uploadFiles_loop_chunks _ _ _ _ _ _ _ _ Hwf Hloop) as (_ & _ & Hnew).
  specialize (Hnew i file storageData Hi Henc).
  destruct Hlanded as (docs' & docs'' & Hfiles' & Hfiles'' & Hperm & Hchunks & _).
  rewrite Hfiles in Hfiles'. apply app_inv_head in Hfiles'. subst docs'.
  assert (GridFS.find b''
            (GridFS.ByOwnerAndFilename (caller up) (File.name file))
          = [uploadedDoc now fileSizeMB (caller up)
               (GridFS.next_id (gridfsBucket w) + i) file]) as Hfind.
  { rewrite (find_after_append (gridfsBucket w) b'' docs'' _ Hfiles'').
    unfold resolve in Hnone.
    destruct (GridFS.find (gridfsBucket w) _); [|done]. cbn [app].
    apply Permutation_singleton_r. rewrite Hperm.
    rewrite (filter_imap_only _ _ fs i file Hi); [done | |].
    - by apply matches_by_name.
    - intros j file' Hj Hfile' [_ Hsame]%matches_by_name.
      by apply (Hunique j file' Hj Hfile'). }
  assert (concat (GridFS.openDownloadStream b''
                    (GridFS.next_id (gridfsBucket w) + i)) = storageData) as Hbytes.
  { rewrite Hchunks, Hnew. apply split_chunks_concat, effectiveChunkSize_pos. }
  split; [unfold resolve; by rewrite Hfind |]. split; [done |].
  rewrite download_world. cbn [gridfsBucket]. unfold caller at 1.
  rewrite Hjwt, Hname. fold (caller up). rewrite Hfind.
  cbn [uploadedDoc GridFS._id GridFS.contentType]. by rewrite Hbytes.
Qed.

(** X13.  The bucket is transparent between the two cipher calls, whatever
    they compute and in whatever order the uploads of a batch complete: for
    a file of a stored batch whose name no other file of the batch and no
    older object of the caller carries, the chunks written (cut at
    chunkSizeBytes = the file's size, or at the driver's default when that
    is 0) concatenate to exactly the bytes encryptStream returned for it,
    the name resolves to that object, and a download of the name hands
    exactly these bytes to decryptStream. *)
Theorem stored_bytes_are_encryptStream_output encryptStream decryptStream
    now fileSizeMB (w : World) (up down : Req.t) (fs : list File.t) (i : nat)
    (file : File.t) (storageData : bytes) (b'' : GridFS.Bucket) :
  GridFS.wf (gridfsBucket w) →
  fileListOf up = inl (Some <$> fs) →
  (uploadFiles encryptStream now fileSizeMB w up).2
  = [ResJson 200 (JsonStatus "success")] →
  fs !! i = Some file →
  (∀ j file', j ≠ i → fs !! j = Some file' → File.name file' ≠ File.name file) →
  encryptStream (GridFS.next_id (gridfsBucket w) + i) (File.data file)
    (Req.body_passphrase up) = inl storageData →
  Req.cookies_jwt down = Req.cookies_jwt up →
  Req.params_name down = File.name file →
  resolve (gridfsBucket w) (caller up) (File.name file) = None →
  landed (gridfsBucket w)
    (gridfsBucket (uploadFiles encryptStream now fileSizeMB w up).1) b'' →
  (∃ file0,
     resolve b'' (caller up) (File.name file) = Some file0
     ∧ concat (GridFS.openDownloadStream b'' (GridFS._id file0)) = storageData)
  ∧ (download decryptStream (mkWorld (Key w) b'') down).2
    = [ResSet [("Accept-Ranges", "bytes");
               ("Content-Disposition", "attachment; filename=" +:+ File.name file);
               ("Content-Type", File.mimetype file)];
       match decryptStream storageData (Req.headers_passphrase down) with
       | inl decrypt => ResPipe decrypt
       | inr e => UnhandledRejection e
       end].
Proof.
  intros Hwf Hlist Hok Hi Hunique Henc Hjwt Hname Hnone Hlanded.
  destruct (download_after_upload_any_order encryptStream decryptStream now
              fileSizeMB w up down fs i file storageData b''
              Hwf Hlist Hok Hi Hunique Henc Hjwt Hname Hnone Hlanded)
    as (Hres & Hbytes & Hdl).
  split; [|by rewrite Hdl].
  eexists. split; [exact Hres | exact Hbytes].
Qed.

Lemma landing_reportFirst :
  landed (gridfsBucket Demo.world0) Landing.inOrder Landing.reportFirst.
Proof.
  exists (GridFS.files Landing.inOrder), (reverse (GridFS.files Landing.inOrder)).
  split; [reflexivity |]. split; [reflexivity |].
  split; [apply reverse_Permutation |]. by split.
Qed.

Lemma stored_bytes_are_encryptStream_output_witness :
  let down := Demo.get Demo.alice "k1" "correct-horse" "report.pdf" in
  let storageData :=
    encrypt Toy.kdf Toy.keystream Toy.mac Toy.frame (File.data Demo.report)
      "correct-horse" tt tt in
  (∃ file0,
     resolve Landing.reportFirst "alice" "report.pdf" = Some file0
     ∧ concat (GridFS.openDownloadStream Landing.reportFirst (GridFS._id file0))
       = storageData)
  ∧ (Demo.download (mkWorld (Key Demo.world0) Landing.reportFirst) down).2
    = [ResSet [("Accept-Ranges", "bytes");
               ("Content-Disposition", "attachment; filename=report.pdf");
               ("Content-Type", "application/pdf")];
       match Toy.decryptStream storageData (Some "correct-horse") with
       | inl decrypt => ResPipe decrypt
       | inr e => UnhandledRejection e
       end].
Proof.
  apply (stored_bytes_are_encryptStream_output Toy.encryptStream Toy.decryptStream
           "Tue Nov 03 2026" (λ _, "0.000") Demo.world0 Landing.batch
           (Demo.get Demo.alice "k1" "correct-horse" "report.pdf")
           [Demo.notes; Demo.report] 1 Demo.report); try reflexivity.
  - apply wf_empty.
  - intros [|[|j]] file' Hj Hfile'; [| lia |].
    + injection Hfile' as <-. discriminate.
    + discriminate.
  - apply landing_reportFirst.
Defined.

(** ** An upload that fails half way *)

Lemma uploadFiles_loop_app encryptStream now fileSizeMB id passphrase
    (l1 l2 : list (option File.t)) :
  ∀ b b1,
    uploadFiles_loop encryptStream now fileSizeMB id passphrase b l1 = (b1, None) →
    uploadFiles_loop encryptStream now fileSizeMB id passphrase b (l1 ++ l2)
    = uploadFiles_loop encryptStream now fileSizeMB id passphrase b1 l2.
Proof.
  induction l1 as [|[file|] l1 IH]; intros b b1 Hloop; cbn [app uploadFiles_loop] in *.
  - by injection Hloop as <-.
  - destruct (encryptStream _ _ _); [by apply IH | discriminate].
  - discriminate.
Qed.

(** X14.  uploadFiles does not undo what it has stored when a later file of
    the batch fails to encrypt: the caller gets that error, and the world is
    left exactly as a successful upload of the files before it leaves it. *)
Theorem uploadFiles_failure_keeps_earlier_files encryptStream now fileSizeMB
    (w w1 : World) (req req_pre : Req.t) (pre : list File.t) (file : File.t)
    (post : list File.t) (e : Error) :
  fileListOf req = inl (Some <$> (pre ++ file :: post)) →
  fileListOf req_pre = inl (Some <$> pre) →
  Req.cookies_jwt req_pre = Req.cookies_jwt req →
  Req.body_passphrase req_pre = Req.body_passphrase req →
  uploadFiles encryptStream now fileSizeMB w req_pre
  = (w1, [ResJson 200 (JsonStatus "success")]) →
  encryptStream (GridFS.next_id (gridfsBucket w1)) (File.data file)
    (Req.body_passphrase req) = inr e →
  uploadFiles encryptStream now fileSizeMB w req = (w1, [Next (Some e)])
  ∧ length (GridFS.files (gridfsBucket w1))
    = length (GridFS.files (gridfsBucket w)) + length pre.
Proof.
  intros Hlist Hlist_pre Hjwt Hpass Hpre Henc.
  destruct (uploadFiles_ok_loop encryptStream now fileSizeMB w req_pre _ Hlist_pre)
    as [Hloop Hkey]; [by rewrite Hpre |].
  rewrite Hpre in Hloop, Hkey. cbn [fst] in Hloop, Hkey.
  unfold caller in Hloop. rewrite Hjwt, Hpass in Hloop.
  destruct (uploadFiles_loop_files _ _ _ _ _ _ _ _ Hloop) as [_ Hfiles].
  split.
  - unfold uploadFiles, catchAsync, uploadFiles_body. rewrite Hlist.
    rewrite fmap_app, (uploadFiles_loop_app _ _ _ _ _ _ _ _ _ Hloop).
    cbn [fmap list_fmap uploadFiles_loop]. rewrite Henc. simpl.
    destruct w1 as [keys1 b1]. simpl in *. by rewrite Hkey.
  - by rewrite Hfiles, length_app, length_imap.
Qed.

Lemma uploadFiles_failure_keeps_earlier_files_witness :
  let upload := uploadFiles Scenario.pickyEncryptStream "Tue Nov 03 2026" (λ _, "0.000") in
  let w1 := (upload Demo.world0
               (Demo.post Demo.alice "k1" "correct-horse"
                  (Some (FileArray [Demo.report])))).1 in
  upload Demo.world0
    (Demo.post Demo.alice "k1" "correct-horse"
       (Some (FileArray [Demo.report; Scenario.empty; Demo.notes])))
  = (w1, [Next (Some (TypeError "nothing to encrypt"))])
  ∧ length (GridFS.files (gridfsBucket w1))
    = length (GridFS.files (gridfsBucket Demo.world0)) + length [Demo.report].
Proof.
  apply (uploadFiles_failure_keeps_earlier_files Scenario.pickyEncryptStream
           "Tue Nov 03 2026" (λ _, "0.000") Demo.world0 _
           (Demo.post Demo.alice "k1" "correct-horse"
              (Some (FileArray [Demo.report; Scenario.empty; Demo.notes])))
           (Demo.post Demo.alice "k1" "correct-horse"
              (Some (FileArray [Demo.report])))
           [Demo.report] Scenario.empty [Demo.notes]
           (TypeError "nothing to encrypt")); reflexivity.
Defined.

(** ** delete followed by other requests *)

Lemma delete_found w req file0 :
  resolve (gridfsBucket w) (caller req) (Req.params_name req) = Some file0 →
  delete w req
  = (mkWorld (Key w) (GridFS.delete (gridfsBucket w) (GridFS._id file0)),
     [ResJson 200 (JsonStatus "success")]).
Proof.
  intros (rest & Hfind)%resolve_Some. by rewrite delete_world, Hfind.
Qed.

(** X15.  After an object has been deleted, the name is free again: when
    the deleted object was the only one of its owner and name, a file
    uploaded next under that name is what a later download serves, the bytes
    handed to decryptStream being those encryptStream returned for the new
    file and nothing of the deleted object. *)
Theorem reupload_after_delete_is_served encryptStream decryptStream now fileSizeMB
    (w : World) (del up down : Req.t) (d : GridFS.FileDoc) (file : File.t)
    (storageData : bytes) :
  GridFS.wf (gridfsBucket w) →
  GridFS.find (gridfsBucket w)
    (GridFS.ByOwnerAndFilename (caller del) (Req.params_name del)) = [d] →
  fileListOf up = inl [Some file] →
  File.name file = Req.params_name del →
  Req.cookies_jwt up = Req.cookies_jwt del →
  Req.cookies_jwt down = Req.cookies_jwt del →
  Req.params_name down = Req.params_name del →
  let w1 := (delete w del).1 in
  (uploadFiles encryptStream now fileSizeMB w1 up).2
  = [ResJson 200 (JsonStatus "success")] →
  encryptStream (GridFS.next_id (gridfsBucket w)) (File.data file)
    (Req.body_passphrase up) = inl storageData →
  (delete w del).2 = [ResJson 200 (JsonStatus "success")]
  ∧ (download decryptStream (uploadFiles encryptStream now fileSizeMB w1 up).1 down).2
    = [ResSet [("Accept-Ranges", "bytes");
               ("Content-Disposition", "attachment; filename=" +:+ File.name file);
               ("Content-Type", File.mimetype file)];
       match decryptStream storageData (Req.headers_passphrase down) with
       | inl decrypt => ResPipe decrypt
       | inr e => UnhandledRejection e
       end].
Proof.
  intros Hwf Hfind Hlist Hname Hjwt_up Hjwt_down Hname_down w1 Hok Henc. subst w1.
  assert (resolve (gridfsBucket w) (caller del) (Req.params_name del) = Some d) as Hres
    by (unfold resolve; by rewrite Hfind).
  rewrite (delete_found w del d Hres) in *. cbn [fst snd] in *.
  split; [done |].
  set (w1 := mkWorld (Key w) (GridFS.delete (gridfsBucket w) (GridFS._id d))) in *.
  destruct (uploadFiles_ok_loop encryptStream now fileSizeMB w1 up _ Hlist Hok)
    as [Hloop Hkey].
  destruct (uploadFiles_loop_files encryptStream now fileSizeMB _ _ [file] _ _ Hloop)
    as (_ & Hfiles).
  destruct (download_after_upload_any_order encryptStream decryptStream now
              fileSizeMB w1 up down [file] 0 file storageData
              (gridfsBucket (uploadFiles encryptStream now fileSizeMB w1 up).1))
    as (_ & _ & Hdl); try done.
  - by apply wf_delete.
  - intros [|j] file' Hj Hfile'; [done |]. simpl in Hfile'.
    by rewrite lookup_nil in Hfile'.
  - cbn [w1 gridfsBucket GridFS.delete GridFS.next_id]. by rewrite Nat.add_0_r.
  - congruence.
  - congruence.
  - unfold resolve, caller. rewrite Hjwt_up, Hname. fold (caller del).
    cbn [w1 gridfsBucket]. rewrite find_delete, Hfind.
    by rewrite filter_cons_False by (intros Hne; by apply Hne).
  - by apply (landed_in_order _ _ _ Hfiles).
  - replace (uploadFiles encryptStream now fileSizeMB w1 up).1
      with (mkWorld (Key w1)
              (gridfsBucket (uploadFiles encryptStream now fileSizeMB w1 up).1))
      by (rewrite <- Hkey; by destruct (uploadFiles _ _ _ _ _).1).
    by rewrite Hdl.
Qed.

Lemma reupload_after_delete_is_served_witness :
  let del := Demo.get Demo.alice "k1" "correct-horse" "report.pdf" in
  let up := Demo.post Demo.alice "k1" "correct-horse" (Some (OneFile Scenario.report2)) in
  let w1 := (delete Demo.world1 del).1 in
  let storageData :=
    encrypt Toy.kdf Toy.keystream Toy.mac Toy.frame (File.data Scenario.report2)
      "correct-horse" tt tt in
  (delete Demo.world1 del).2 = [ResJson 200 (JsonStatus "success")]
  ∧ (Demo.download (Demo.uploadFiles w1 up).1 del).2
    = [ResSet [("Accept-Ranges", "bytes");
               ("Content-Disposition", "attachment; filename=report.pdf");
               ("Content-Type", "application/pdf")];
       match Toy.decryptStream storageData (Some "correct-horse") with
       | inl decrypt => ResPipe decrypt
       | inr e => UnhandledRejection e
       end].
Proof.
  apply (reupload_after_delete_is_served Toy.encryptStream Toy.decryptStream
           "Tue Nov 03 2026" (λ _, "0.000") Demo.world1
           (Demo.get Demo.alice "k1" "correct-horse" "report.pdf")
           (Demo.post Demo.alice "k1" "correct-horse" (Some (OneFile Scenario.report2)))
           (Demo.get Demo.alice "k1" "correct-horse" "report.pdf")
           Demo.reportDoc Scenario.report2); try reflexivity.
  apply (uploadFiles_wf Toy.encryptStream "Tue Nov 03 2026" (λ _, "0.000")
           Demo.world0), wf_empty.
Defined.

(** X16.  In a bucket with unique ids, when two or more objects of the
    caller carry the requested name, delete removes the oldest, and the
    download that follows serves the next oldest with its stored bytes
    unchanged. *)
Theorem delete_uncovers_next_namesake decryptStream (w : World) (req : Req.t)
    (file0 file1 : GridFS.FileDoc) (rest : list GridFS.FileDoc) :
  bucket_inv (gridfsBucket w) →
  GridFS.find (gridfsBucket w)
    (GridFS.ByOwnerAndFilename (caller req) (Req.params_name req))
  = file0 :: file1 :: rest →
  resolve (gridfsBucket (delete w req).1) (caller req) (Req.params_name req)
  = Some file1
  ∧ (download decryptStream (delete w req).1 req).2
    = [ResSet [("Accept-Ranges", "bytes");
               ("Content-Disposition", "attachment; filename=" +:+ Req.params_name req);
               ("Content-Type", GridFS.contentType file1)];
       match decryptStream
               (concat (GridFS.openDownloadStream (gridfsBucket w) (GridFS._id file1)))
               (Req.headers_passphrase req) with
       | inl decrypt => ResPipe decrypt
       | inr e => UnhandledRejection e
       end].
Proof.
  intros [Hwf Huniq] Hfind.
  assert (resolve (gridfsBucket w) (caller req) (Req.params_name req) = Some file0)
    as Hres by (unfold resolve; by rewrite Hfind).
  rewrite (delete_found w req file0 Hres). cbn [fst].
  assert (GridFS._id file1 ≠ GridFS._id file0) as Hne.
  { assert (NoDup (GridFS._id <$> GridFS.find (gridfsBucket w)
                     (GridFS.ByOwnerAndFilename (caller req) (Req.params_name req))))
      as Hsub.
    { eapply sublist_NoDup; [exact Huniq |]. apply fmap_sublist, sublist_filter. }
    rewrite Hfind in Hsub. cbn [fmap list_fmap] in Hsub.
    apply NoDup_cons in Hsub as [Hfresh _]. intros Heq. apply Hfresh.
    rewrite Heq. apply list_elem_of_here. }
  assert (resolve (GridFS.delete (gridfsBucket w) (GridFS._id file0))
            (caller req) (Req.params_name req) = Some file1) as Hres1.
  { unfold resolve. rewrite find_delete, Hfind.
    rewrite filter_cons_False by (intros Hn; by apply Hn).
    by rewrite filter_cons_True. }
  split; [done |].
  rewrite download_world. cbn [snd gridfsBucket].
  destruct (resolve_Some _ _ _ _ Hres1) as (rest' & ->).
  by rewrite openDownloadStream_delete_other.
Qed.

Lemma delete_uncovers_next_namesake_witness :
  let req := Demo.get Demo.alice "k1" "correct-horse" "report.pdf" in
  let file1 := uploadedDoc "Tue Nov 03 2026" (λ _, "0.000") "alice" 1 Demo.report in
  resolve (gridfsBucket (delete Demo.world2 req).1) "alice" "report.pdf" = Some file1
  ∧ (Demo.download (delete Demo.world2 req).1 req).2
    = [ResSet [("Accept-Ranges", "bytes");
               ("Content-Disposition", "attachment; filename=report.pdf");
               ("Content-Type", "application/pdf")];
       match Toy.decryptStream
               (concat (GridFS.openDownloadStream (gridfsBucket Demo.world2) 1))
               (Some "correct-horse") with
       | inl decrypt => ResPipe decrypt
       | inr e => UnhandledRejection e
       end].
Proof.
  apply (delete_uncovers_next_namesake Toy.decryptStream Demo.world2
           (Demo.get Demo.alice "k1" "correct-horse" "report.pdf")
           Demo.reportDoc
           (uploadedDoc "Tue Nov 03 2026" (λ _, "0.000") "alice" 1 Demo.report) []);
    [| reflexivity].
  apply world2_bucket_inv.
Defined.

(** ** getAllKey *)

(** X17.  getAllKey always answers 200, also when the caller has no key:
    the 404 branch is never taken because the query yields an array.  The
    listing holds the caller's key records, each once, and no key of anyone
    else. *)
Theorem getAllKey_lists_callers_keys (w : World) (req : Req.t) :
  ∃ listing,
    KeyController.getAllKey w req = [KeyController.ResJson 200 (Some listing)]
    ∧ NoDup (KeyController._id <$> listing)
    ∧ ∀ v, v ∈ listing
           ↔ ∃ key, Key w !! KeyController._id v = Some key
                    ∧ KeyModel.user key = caller req
                    ∧ v = KeyController.view (KeyController._id v, key).
Proof.
  exists (KeyController.find (Key w) (caller req)).
  split; [done |]. unfold KeyController.find. split.
  - rewrite <- list_fmap_compose.
    apply (NoDup_fst_map_to_list
             (filter (λ kv, KeyModel.user kv.2 = caller req) (Key w))).
  - intros v. rewrite list_elem_of_fmap. split.
    + intros ([k key] & -> & Hin). apply elem_of_map_to_list in Hin.
      apply map_lookup_filter_Some in Hin as [Hkey Huser].
      exists key. by split.
    + intros (key & Hkey & Huser & Hv). exists (KeyController._id v, key).
      split; [done |]. apply elem_of_map_to_list.
      by apply map_lookup_filter_Some.
Qed.

(** ** The round trip through the store, and a failed decryption *)

Section RoundTrip.
Context {Salt Nonce SecretKey Tag : Type} `{!EqDecision Tag}.
Variable kdf : string → Salt → SecretKey.
Variable keystream : SecretKey → Nonce → nat → bytes.
Variable mac : SecretKey → Nonce → bytes → Tag.
Variable frame : Salt → Nonce → Tag → bytes → bytes.
Variable unframe : bytes → option (Salt * Nonce * Tag * bytes).
Variable entropy : nat → Salt * Nonce.

(** The output is self-contained: salt, nonce, tag and body can be read
    back from it. *)
Hypothesis unframe_frame :
  ∀ salt nonce tag body, unframe (frame salt nonce tag body) = Some (salt, nonce, tag, body).

Local Abbreviation encrypt' := (encrypt kdf keystream mac frame).
Local Abbreviation decrypt' := (decrypt kdf keystream mac unframe).
Local Abbreviation encryptStream' := (encryptStream kdf keystream mac frame entropy).
Local Abbreviation decryptStream' := (decryptStream kdf keystream mac unframe).

(** C1.  Decrypting with K what was encrypted with K gives back the
    plaintext; and for every file of an uploaded batch, in whatever order
    the uploads of the batch completed, a download with the passphrase of
    the upload pipes exactly the uploaded bytes to the response, the file
    being the only one of its name in the batch and the caller having
    stored none of that name before. *)
Theorem upload_download_roundtrip :
  (∀ (P : bytes) (K : string) (salt : Salt) (nonce : Nonce),
     decrypt' (encrypt' P K salt nonce) K = inl P)
  ∧ (∀ now fileSizeMB (w : World) (up down : Req.t) (fs : list File.t)
       (i : nat) (file : File.t) (K : string) (b'' : GridFS.Bucket),
       GridFS.wf (gridfsBucket w) →
       fileListOf up = inl (Some <$> fs) →
       Req.body_passphrase up = Some K →
       fs !! i = Some file →
       (∀ j file', j ≠ i → fs !! j = Some file' → File.name file' ≠ File.name file) →
       GridFS.find (gridfsBucket w)
         (GridFS.ByOwnerAndFilename (Jwt.id (Req.cookies_jwt up)) (File.name file)) = [] →
       Req.cookies_jwt down = Req.cookies_jwt up →
       Req.params_name down = File.name file →
       Req.headers_passphrase down = Some K →
       landed (gridfsBucket w)
         (gridfsBucket (uploadFiles encryptStream' now fileSizeMB w up).1) b'' →
       download decryptStream' (mkWorld (Key w) b'') down
       = (mkWorld (Key w) b'',
          [ResSet [("Accept-Ranges", "bytes");
                   ("Content-Disposition",
                    "attachment; filename=" +:+ File.name file);
                   ("Content-Type", File.mimetype file)];
           ResPipe (File.data file)])).
Proof using unframe_frame.
  split; [by apply decrypt_encrypt |].
  intros now fileSizeMB w up down fs i file K b''
    Hwf Hlist Hpass Hi Hunique Hnone Hjwt Hname Hhdr Hlanded.
  destruct (uploadFiles_answers_200 encryptStream' now fileSizeMB
              w up K fs (encryptStream_total _ _ _ _ _ K) Hpass Hlist)
    as (b' & _ & Hup).
  destruct (download_after_upload_any_order encryptStream' decryptStream' now
              fileSizeMB w up down fs i file
              (encrypt' (File.data file) K
                 (entropy (GridFS.next_id (gridfsBucket w) + i)).1
                 (entropy (GridFS.next_id (gridfsBucket w) + i)).2) b'')
    as (_ & _ & Hdl); try done.
  - by rewrite Hup.
  - rewrite Hpass. apply encryptStream_Some.
  - unfold resolve, caller, jwtDecoder. by rewrite Hnone.
  - rewrite Hdl, Hhdr. cbn [decryptStream]. by rewrite decrypt_encrypt.
Qed.
End RoundTrip.

Lemma upload_download_roundtrip_witness :
  let down := Demo.get Demo.alice "k1" "correct-horse" "report.pdf" in
  let w'' := mkWorld (Key Demo.world0) Landing.reportFirst in
  decrypt Toy.kdf Toy.keystream Toy.mac Toy.unframe
    (encrypt Toy.kdf Toy.keystream Toy.mac Toy.frame
       (File.data Demo.report) "correct-horse" tt tt) "correct-horse"
  = inl (File.data Demo.report)
  ∧ Demo.download w'' down
    = (w'', [ResSet [("Accept-Ranges", "bytes");
                     ("Content-Disposition", "attachment; filename=report.pdf");
                     ("Content-Type", "application/pdf")];
             ResPipe (File.data Demo.report)]).
Proof.
  intros down w''.
  destruct (upload_download_roundtrip Toy.kdf Toy.keystream Toy.mac Toy.frame
              Toy.unframe Toy.entropy toy_unframe_frame) as [Hcipher Hstore].
  split; [apply Hcipher |].
  apply (Hstore "Tue Nov 03 2026" (λ _, "0.000") Demo.world0 Landing.batch down
           [Demo.notes; Demo.report] 1 Demo.report "correct-horse"
           Landing.reportFirst); try reflexivity.
  - apply wf_empty.
  - intros [|[|j]] file' Hj Hfile'; [| lia |].
    + injection Hfile' as <-. discriminate.
    + discriminate.
  - apply landing_reportFirst.
Defined.

(** C2.  download awaits decryptStream inside the listener for the end of
    the download stream, outside the reach of catchAsync.  So the only
    error download ever hands to next is the 404; when decryptStream rejects,
    nothing is piped, but the rejection stays unhandled and no error, and in
    particular no AuthenticationError, reaches the caller, whose response
    has its headers set and is left open.  So it is for alice downloading
    report.pdf with the passphrase "wrong". *)
Theorem download_never_surfaces_decryption_failure decryptStream
    (w : World) (req : Req.t) :
  Forall (λ ev, ∀ e, ev = Next (Some e) → e = AppError "Not found!" (Some 404))
    (download decryptStream w req).2
  ∧ (∀ file0 e,
       resolve (gridfsBucket w) (caller req) (Req.params_name req) = Some file0 →
       decryptStream
         (concat (GridFS.openDownloadStream (gridfsBucket w) (GridFS._id file0)))
         (Req.headers_passphrase req) = inr e →
       download decryptStream w req
       = (w, [ResSet [("Accept-Ranges", "bytes");
                      ("Content-Disposition",
                       "attachment; filename=" +:+ Req.params_name req);
                      ("Content-Type", GridFS.contentType file0)];
              UnhandledRejection e]))
  ∧ Demo.download Demo.world1 (Demo.get Demo.alice "k1" "wrong" "report.pdf")
    = (Demo.world1,
       [ResSet [("Accept-Ranges", "bytes");
                ("Content-Disposition", "attachment; filename=report.pdf");
                ("Content-Type", "application/pdf")];
        UnhandledRejection AuthenticationError]).
Proof.
  split; [| split; [| reflexivity]].
  - rewrite download_world. cbn [snd].
    destruct (GridFS.find _ _) as [|file0 rest].
    + constructor; [|constructor]. by intros e [= <-].
    + constructor; [intros e; discriminate |].
      constructor; [|constructor]. intros e.
      destruct (decryptStream _ _); discriminate.
  - intros file0 e (rest & Hfind)%resolve_Some Hdec.
    by rewrite download_world, Hfind, Hdec.
Qed.
